(** * connect-fonts: lib/css-responder.js

    A shallow embedding of the font CSS responder: the URL pattern and its
    backtracking match, the cache key, the file name derived from it, the
    in-memory CSS cache in front of the generator, and the connect
    middleware with its cache-control headers.

    JavaScript strings are modelled as [string] (one [ascii] per code
    unit), module-level variables as fields of a state record that every
    function threads, and the asynchronous callbacks as the value they are
    eventually called with: the functions below run one call to
    completion. *)

From Stdlib Require Import ZArith Ascii String List Lia.
From Stdlib Require Import Numbers.DecimalString.
From stdpp Require Import base option gmap strings.

Local Open Scope string_scope.
Local Open Scope list_scope.

(* stdpp keeps [simpl] from unfolding string concatenation; the proofs
   below compute with it. *)
#[local] Arguments String.append !_ _ / : simpl nomatch.

(** ** JavaScript values used by the module *)

Module Js.

  (** Truthiness of a value that is either [undefined] or a string: only a
      non-empty string is truthy. *)
Definition truthy (v : option string) : bool :=
    match v with
    | Some (String _ _) => true
    | _ => false
    end.

  (** [a || b] on such values. *)
Definition or_else (a b : option string) : option string :=
    if truthy a then a else b.

  (** [s.split(c)] for a one-character separator. *)
Fixpoint split (c : ascii) (s : string) : list string :=
    match s with
    | EmptyString => [EmptyString]
    | String a s' =>
        if Ascii.eqb a c then EmptyString :: split c s'
        else match split c s' with
             | x :: xs => String a x :: xs
             | [] => [String a EmptyString]
             end
    end.

  (** [l.join(sep)]; [Array.prototype.toString] is [join ","]. *)
Fixpoint join (sep : string) (l : list string) : string :=
    match l with
    | [] => EmptyString
    | [x] => x
    | x :: xs => x +:+ sep +:+ join sep xs
    end.

  (** [s.startsWith]-style prefix removal, used for literal pattern text. *)
Fixpoint strip_prefix (p s : string) : option string :=
    match p, s with
    | EmptyString, _ => Some s
    | String a p', String b s' =>
        if Ascii.eqb a b then strip_prefix p' s' else None
    | String _ _, EmptyString => None
    end.

  (** The first [n] code units of [s]. *)
Fixpoint take (n : nat) (s : string) : string :=
    match n, s with
    | S n', String a s' => String a (take n' s')
    | _, _ => EmptyString
    end.

  (** Number of occurrences of one code unit. *)
Fixpoint count (c : ascii) (s : string) : nat :=
    match s with
    | EmptyString => 0
    | String a s' => (if Ascii.eqb a c then 1 else 0) + count c s'
    end.

  (** [c] does not occur in [s]. *)
Definition free_of (c : ascii) (s : string) : Prop := count c s = 0.

(** The last code unit of [s], if any. *)
Fixpoint last_char (s : string) : option ascii :=
  match s with
  | EmptyString => None
  | String a EmptyString => Some a
  | String _ s' => last_char s'
  end.

End Js.

(** ** Regular expressions: a backtracking matcher with captures

    Only the constructs of the responder's pattern are present. The matcher
    follows the ECMAScript semantics: alternatives are tried in priority
    order, quantifiers are greedy, and the continuation [k] stands for the
    rest of the pattern. *)

Module Regex.

Inductive t : Type :=
  | Lit (s : string)            (* literal text, such as [\/fonts\.css] *)
  | NotCharPlus (c : ascii)     (* [[^c]+], greedy *)
  | Group (i : nat) (r : t)     (* capturing group number [i] *)
  | Seq (r1 r2 : t)
  | Opt (r : t)                 (* [(?: r )?], greedy *)
  | EndOfInput.                 (* [$] without the multiline flag *)

  (** Captures: group number to the text it matched last; absent when the
      group did not take part ([undefined] in the match array). *)
Definition captures : Type := nat -> option string.

Definition no_captures : captures := fun _ => None.

Definition set_capture (i : nat) (s : string) (c : captures) : captures :=
    fun j => if Nat.eqb i j then Some s else c j.

  (** The text consumed between the input [s] and its suffix [s']. *)
Definition consumed (s s' : string) : string :=
    Js.take (String.length s - String.length s') s.

Section Matcher.
Context {A : Type}.

    (** [[^c]+]: take one more code unit while possible, hand back the
        longest run first. *)
Fixpoint not_char_plus (c : ascii) (s : string)
             (k : string -> option A) : option A :=
      match s with
      | EmptyString => None
      | String a s' =>
          if Ascii.eqb a c then None
          else match not_char_plus c s' k with
               | Some x => Some x
               | None => k s'
               end
      end.

Fixpoint run (r : t) (s : string) (c : captures)
             (k : string -> captures -> option A) : option A :=
      match r with
      | Lit l =>
          match Js.strip_prefix l s with
          | Some s' => k s' c
          | None => None
          end
      | NotCharPlus x => not_char_plus x s (fun s' => k s' c)
      | Group i r' =>
          run r' s c (fun s' c' => k s' (set_capture i (consumed s s') c'))
      | Seq r1 r2 => run r1 s c (fun s' c' => run r2 s' c' k)
      | Opt r' =>
          match run r' s c k with
          | Some x => Some x
          | None => k s c
          end
      | EndOfInput =>
          match s with
          | EmptyString => k s c
          | String _ _ => None
          end
      end.
End Matcher.

  (** One attempt at a fixed start position. *)
Definition match_here (r : t) (s : string) : option captures :=
    run r s no_captures (fun _ c => Some c).

  (** [r.exec(s)] for a pattern without flags: the leftmost start position
      at which an attempt succeeds, the end of the input included. *)
Fixpoint exec (r : t) (s : string) : option captures :=
    match match_here r s with
    | Some c => Some c
    | None =>
        match s with
        | EmptyString => None
        | String _ s' => exec r s'
        end
    end.

End Regex.

(** ** The module's data *)

(** Errors that travel through the callbacks. [InvalidFontError] is the
    generator's own class; everything else (I/O errors, generator failures,
    type errors) is some other error object. *)
Inductive JsError : Type :=
| InvalidFontError (message : string)
| OtherError (name message : string).

(** [err instanceof InvalidFontError] *)
Definition instanceof_InvalidFontError (e : JsError) : bool :=
  match e with
  | InvalidFontError _ => true
  | OtherError _ _ => false
  end.

(** What a callback-style function ends with: [done(null, a)], [done(err)],
    or an exception thrown before [done] is reached. *)
Inductive result (A : Type) : Type :=
| Ok (a : A)
| Err (e : JsError)
| Thrown (e : JsError).
Arguments Ok {A} a.
Arguments Err {A} e.
Arguments Thrown {A} e.

(** The object built by [generate_css] as [{css: cssStr}], to which
    [get_css] later adds [cssPath]. *)
Record CssObj : Type := mkCssObj {
  css : string;
  cssPath : option string
}.

(** The options given to [setup], with the fields this file reads. The font
    table and the locale map only travel on to the generator. *)
Record Options : Type := mkOptions {
  opt_maxage : option Z;
  opt_compress : option bool;
  opt_ua : option string
}.

(** What the statements observe of a run, newest first: each entry into
    [get_css] and each call to a collaborator (the generator, [tmp.dir],
    [fs.writeFile]). *)
Inductive event : Type :=
| CalledGetCss (ua locale : string) (fonts : list string)
| CalledGenerator (ua locale : string) (fonts : list string)
| CalledTmpDir
| CalledWriteFile (path content : string).

(** The module-level variables [config], [maxAge], [compress], [cssCache]
    and [cssTmpPath], together with the files written so far and the
    record of calls. *)
Record State : Type := mkState {
  config : Options;
  maxAge : Z;
  compress : bool;
  cssCache : gmap string CssObj;
  cssTmpPath : option string;
  disk : gmap string string;
  trace : list event
}.

(** The collaborators' answers during one call: the font CSS generator,
    [tmp.dir] and [fs.writeFile]. *)
Record Env : Type := mkEnv {
  get_font_css : string -> string -> list string -> JsError + string;
  tmp_dir : JsError + string;
  write_file : string -> string -> option JsError
}.

Definition set_cssTmpPath (p : option string) (st : State) : State :=
  mkState (config st) (maxAge st) (compress st) (cssCache st) p
          (disk st) (trace st).

Definition set_cssCache (c : gmap string CssObj) (st : State) : State :=
  mkState (config st) (maxAge st) (compress st) c (cssTmpPath st)
          (disk st) (trace st).

Definition set_disk (d : gmap string string) (st : State) : State :=
  mkState (config st) (maxAge st) (compress st) (cssCache st)
          (cssTmpPath st) d (trace st).

Definition record (e : event) (st : State) : State :=
  mkState (config st) (maxAge st) (compress st) (cssCache st)
          (cssTmpPath st) (disk st) (e :: trace st).

(** The module once loaded and set up with no optional field: [setup] must
    be called before the other functions (line 56), and the state before
    it, in which [config] is still undefined, is not represented.
    [setup (mkOptions None None None)] leaves this state as it is. *)
Definition initial : State :=
  mkState (mkOptions None None None) 0 false ∅ None ∅ [].

(** ** setup (lines 65-81), for options that pass the required-field check *)

Definition setup (options : Options) (st : State) : State :=
  mkState options
          (match opt_maxage options with
           | Some m => if (m =? 0)%Z then 0%Z else m
           | None => 0%Z
           end)
          (match opt_compress options with Some b => b | None => false end)
          ∅
          (cssTmpPath st) (disk st) (trace st).

(** ** prepareTmpPath (lines 37-48)

    Returns the pair of arguments given to [done]. *)
Definition prepareTmpPath (env : Env) (st : State)
  : (option JsError * option string) * State :=
  if Js.truthy (cssTmpPath st) then ((None, cssTmpPath st), st)
  else
    let st1 := record CalledTmpDir st in
    match tmp_dir env with
    | inl err => ((Some err, None), st1)
    | inr tmpPath => ((None, Some tmpPath), set_cssTmpPath (Some tmpPath) st1)
    end.

(** ** getCacheKey (lines 50-53)

    [fonts] is an array; [+] converts it with [join(",")]. *)
Definition getCacheKey (ua locale : string) (fonts : list string) : string :=
  ua +:+ "-" +:+ locale +:+ "-" +:+ Js.join "," fonts.

(** ** The file name of a cache key (line 131) *)

(** [\w] is [[A-Za-z0-9_]]. *)
Definition is_word_char (a : ascii) : bool :=
  let n := N_of_ascii a in
  ((48 <=? n) && (n <=? 57) || (65 <=? n) && (n <=? 90)
   || (97 <=? n) && (n <=? 122) || (n =? 95))%N.

(** [s.replace(/\W/g, by)] for a one-character replacement. *)
Fixpoint replace_non_word (by_ : ascii) (s : string) : string :=
  match s with
  | EmptyString => EmptyString
  | String a s' =>
      String (if is_word_char a then a else by_) (replace_non_word by_ s')
  end.

Definition css_file_name (cacheKey : string) : string :=
  replace_non_word "-" cacheKey +:+ ".css".

(** [path.join(dir, file)] on POSIX, for a normalised directory without a
    trailing separator (what [tmp.dir] yields) and a file name without
    separators (what [css_file_name] yields). A directory that is not a
    string ([undefined]) makes [path.join] throw a [TypeError]. *)
Definition path_join (dir : option string) (file : string)
  : JsError + string :=
  match dir with
  | Some d => inr (d +:+ "/" +:+ file)
  | None => inl (OtherError "TypeError" "Path must be a string")
  end.

(** ** generate_css (lines 93-105) *)

Definition generate_css (env : Env) (ua locale : string) (fonts : list string)
           (st : State) : result CssObj * State :=
  let st1 := record (CalledGenerator ua locale fonts) st in
  match get_font_css env ua locale fonts with
  | inl err => (Err err, st1)
  | inr cssStr => (Ok (mkCssObj cssStr None), st1)
  end.

(** ** get_css (lines 117-142) *)

Definition get_css (env : Env) (ua locale : string) (fonts : list string)
           (st : State) : result CssObj * State :=
  let st0 := record (CalledGetCss ua locale fonts) st in
  let cacheKey := getCacheKey ua locale fonts in
  match cssCache st0 !! cacheKey with
  | Some cacheHit => (Ok cacheHit, st0)
  | None =>
      (* no cache hit, go generate the CSS. *)
      match generate_css env ua locale fonts st0 with
      | (Err err, st1) => (Err err, st1)
      | (Thrown err, st1) => (Thrown err, st1)
      | (Ok cssObj, st1) =>
          (* save CSS to disk; the error of prepareTmpPath is not looked at *)
          let '((_, tmpPath), st2) := prepareTmpPath env st1 in
          match path_join tmpPath (css_file_name cacheKey) with
          | inl err => (Thrown err, st2)
          | inr path =>
              let st3 := record (CalledWriteFile path (css cssObj)) st2 in
              match write_file env path (css cssObj) with
              | Some err => (Err err, st3)
              | None =>
                  (* save to cache. *)
                  let cssObj' := mkCssObj (css cssObj) (Some path) in
                  (Ok cssObj',
                   set_cssCache (<[cacheKey := cssObj']> (cssCache st3))
                     (set_disk (<[path := css cssObj]> (disk st3)) st3))
              end
          end
      end
  end.

(** ** font_css_responder (lines 151-197) *)

Record Request : Type := mkRequest {
  method : string;
  url : string;
  headers : gmap string string
}.

(** [/(?:\/([^\/]+))?\/([^\/]+)\/fonts\.css$/] *)
Definition font_css_pattern : Regex.t :=
  Regex.Seq
    (Regex.Opt (Regex.Seq (Regex.Lit "/")
                          (Regex.Group 1 (Regex.NotCharPlus "/"))))
    (Regex.Seq (Regex.Lit "/")
       (Regex.Seq (Regex.Group 2 (Regex.NotCharPlus "/"))
          (Regex.Seq (Regex.Lit "/fonts.css") Regex.EndOfInput))).

(** The condition of line 153: a GET request whose URL the pattern finds. *)
Definition request_match (req : Request) : option Regex.captures :=
  if String.eqb (method req) "GET"
  then Regex.exec font_css_pattern (url req)
  else None.

(** [locale] after lines 159-165: [match[1]], or ["default"] when that is
    falsy. *)
Definition locale_of (m : Regex.captures) : string :=
  match m 1 with
  | Some (String _ _ as locale) => locale
  | _ => "default"
  end.

(** [fonts] after lines 160-167: [match[2].split(',')]; [None] stands for
    the [TypeError] of calling [split] on [undefined]. *)
Definition fonts_of (m : Regex.captures) : option (list string) :=
  Js.split "," <$> m 2.

(** [config.ua || req.headers['user-agent']] *)
Definition resolve_ua (st : State) (req : Request) : option string :=
  Js.or_else (opt_ua (config st)) (headers req !! "user-agent").

(** What the middleware did with a request. *)
Inductive outcome : Type :=
| Next                                   (* [next()] was called *)
| Uncaught (e : JsError)                 (* an exception left the handler *)
| Piped (path : option string) (compressed : bool).
                                         (* the file was piped to [res] *)

(** The callback given to [get_css] (lines 170-191). *)
Definition on_css (r : result CssObj * State) : outcome * State :=
  match r with
  | (Err err, st) =>
      if instanceof_InvalidFontError err then (Next, st)
      else (Uncaught err, st)
  | (Thrown err, st) => (Uncaught err, st)
  | (Ok cssObj, st) => (Piped (cssPath cssObj) (compress st), st)
  end.

Definition font_css_responder (env : Env) (req : Request) (st : State)
  : outcome * State :=
  match request_match req with
  | Some m =>
      let ua := resolve_ua st req in
      let locale := locale_of m in
      match fonts_of m with
      | None =>
          (Uncaught (OtherError "TypeError" "fonts is undefined"), st)
      | Some fonts =>
          (* ua && locale && fonts: an array is always truthy *)
          match ua, locale with
          | Some (String _ _ as ua'), String _ _ =>
              on_css (get_css env ua' locale fonts st)
          | _, _ =>
              (* no UA was specified. Move along. *)
              (Next, st)
          end
      end
  | None =>
      (* this is not a font request. Move along. *)
      (Next, st)
  end.

(** ** setCacheControlHeaders (lines 199-206) *)

Module Number.

(** Decimal digits of an integer. *)
Definition of_Z (n : Z) : string := NilEmpty.string_of_int (Z.to_int n).

(** The digits after the point of [r/1000] for [0 < r < 1000], without
    trailing zeros. *)
Definition thousandths (r : Z) : string :=
  let d1 := of_Z (r / 100) in
  let d2 := of_Z (r / 10 mod 10) in
  let d3 := of_Z (r mod 10) in
  if (r mod 10 =? 0)%Z
  then if (r / 10 mod 10 =? 0)%Z then d1 else d1 +:+ d2
  else d1 +:+ d2 +:+ d3.

(** ['' + (n / 1000)] for an integer [n]: the quotient is a double, and
    its shortest decimal form is the exact one as long as it has at most
    fifteen significant digits, which holds for [|n| < 10^15]. *)
Definition div_1000_to_string (n : Z) : string :=
  let q := Z.quot (Z.abs n) 1000 in
  let r := Z.rem (Z.abs n) 1000 in
  (if (n <? 0)%Z then "-" else "") +:+ of_Z q
  +:+ (if (r =? 0)%Z then "" else "." +:+ thousandths r).

End Number.

(** The response's header table as [getHeader] and [setHeader] see it,
    field names as the code writes them; [now] is what
    [new Date().toUTCString()] gives at the time of the call. *)
Definition setCacheControlHeaders (now : string) (st : State)
           (res : gmap string string) : gmap string string :=
  if (maxAge st =? 0)%Z then res
  else
    let res1 :=
      if negb (Js.truthy (res !! "Date")) then <["Date" := now]> res
      else res in
    if negb (Js.truthy (res1 !! "Cache-Control"))
    then <["Cache-Control" :=
             "public, max-age=" +:+ Number.div_1000_to_string (maxAge st)]> res1
    else res1.

(** ** Vocabulary of the statements *)

(** [(?:\/([^\/]+))] and [\/([^\/]+)\/fonts\.css$], the two halves of the
    pattern. *)
Definition locale_part : Regex.t :=
  Regex.Seq (Regex.Lit "/") (Regex.Group 1 (Regex.NotCharPlus "/")).

Definition fonts_part : Regex.t :=
  Regex.Seq (Regex.Lit "/")
    (Regex.Seq (Regex.Group 2 (Regex.NotCharPlus "/"))
       (Regex.Seq (Regex.Lit "/fonts.css") Regex.EndOfInput)).

(** A path segment: non-empty and without a slash. *)
Definition segment (g : string) : Prop := g <> "" /\ Js.free_of "/" g.

(** The two shapes of text the pattern matches at a fixed position. *)
Definition with_locale (g1 g2 : string) : string :=
  "/" +:+ g1 +:+ "/" +:+ g2 +:+ "/fonts.css".

Definition without_locale (g2 : string) : string :=
  "/" +:+ g2 +:+ "/fonts.css".

(** The match array with group 1 as given and group 2 set. *)
Definition captured (g1 : option string) (g2 : string) : Regex.captures :=
  let c := match g1 with
           | Some g => Regex.set_capture 1 g Regex.no_captures
           | None => Regex.no_captures
           end in
  Regex.set_capture 2 g2 c.

(** The directory [prepareTmpPath] hands to its callback. *)
Definition resolved_tmp_path (env : Env) (st : State) : option string :=
  snd (fst (prepareTmpPath env st)).

(** How often the generator has been invoked. *)
Fixpoint generator_calls_in (t : list event) : nat :=
  match t with
  | [] => 0
  | CalledGenerator _ _ _ :: t' => S (generator_calls_in t')
  | _ :: t' => generator_calls_in t'
  end.

Definition generator_calls (st : State) : nat := generator_calls_in (trace st).

(** Keys that [css_file_name] leaves as they are: word characters and the
    placeholder itself. *)
Fixpoint keeps_name (s : string) : bool :=
  match s with
  | EmptyString => true
  | String a s' => (is_word_char a || Ascii.eqb a "-") && keeps_name s'
  end.

(** ** Requests used as examples *)

Definition get_request (u : string) (agent : option string) : Request :=
  mkRequest "GET" u
            (match agent with
             | Some a => {[ "user-agent" := a ]}
             | None => ∅
             end).

Definition post_request (u : string) : Request :=
  mkRequest "POST" u {[ "user-agent" := "Mozilla/5.0" ]}.

(** A generator that knows every font, one that knows none, and one whose
    CSS names the user agent it was made for; a working temporary
    directory and disk, and a disk that refuses writes. *)
Definition env_ok : Env :=
  mkEnv (fun _ _ _ => inr "@font-face{}") (inr "/tmp/fonts")
        (fun _ _ => None).

Definition env_invalid_font : Env :=
  mkEnv (fun _ _ _ => inl (InvalidFontError "unknown font"))
        (inr "/tmp/fonts") (fun _ _ => None).

Definition env_per_ua : Env :=
  mkEnv (fun ua _ _ => inr ("/* " +:+ ua +:+ " */")) (inr "/tmp/fonts")
        (fun _ _ => None).

Definition env_disk_full : Env :=
  mkEnv (fun _ _ _ => inr "@font-face{}") (inr "/tmp/fonts")
        (fun _ _ => Some (OtherError "Error" "ENOSPC")).

(** States the module can be in: the one after a first [setup] without
    optional fields, and whatever the exported functions make of a state
    they are called in. *)
Inductive reachable : State -> Prop :=
| reach_initial : reachable initial
| reach_setup options st :
    reachable st -> reachable (setup options st)
| reach_get_css env ua locale fonts st :
    reachable st -> reachable (snd (get_css env ua locale fonts st))
| reach_responder env req st :
    reachable st -> reachable (snd (font_css_responder env req st)).

(** Every cache entry names the file derived from its key, in some
    directory, and that file has been written. *)
Definition cache_wf (st : State) : Prop :=
  forall key o,
    cssCache st !! key = Some o ->
    exists dir,
      cssPath o = Some (dir +:+ "/" +:+ css_file_name key)
      /\ is_Some (disk st !! (dir +:+ "/" +:+ css_file_name key)).

(** * Properties *)

(** ** Facts about strings *)

Section StringFacts.

Implicit Types (s t u : string) (a c : ascii).

Lemma app_assoc_s s t u : (s +:+ t) +:+ u = s +:+ (t +:+ u).
Proof. induction s as [|a s IH]; simpl; [reflexivity | now rewrite IH]. Qed.

Lemma app_empty_r s : s +:+ "" = s.
Proof. induction s as [|a s IH]; simpl; [reflexivity | now rewrite IH]. Qed.

Lemma length_app s t :
  String.length (s +:+ t) = String.length s + String.length t.
Proof. induction s as [|a s IH]; simpl; [reflexivity | now rewrite IH]. Qed.

Lemma app_cancel_r s t u : s +:+ u = t +:+ u -> s = t.
Proof.
  revert t. induction s as [|a s IH]; intros [|b t] H; simpl in H.
  - reflexivity.
  - apply (f_equal String.length) in H. simpl in H.
    rewrite length_app in H. lia.
  - apply (f_equal String.length) in H. simpl in H.
    rewrite length_app in H. lia.
  - injection H as -> H. f_equal. now apply IH.
Qed.

Lemma count_app c s t : Js.count c (s +:+ t) = Js.count c s + Js.count c t.
Proof.
  induction s as [|a s IH]; simpl; [reflexivity | rewrite IH; lia].
Qed.

Lemma free_of_cons c a s :
  Js.free_of c (String a s) <-> a <> c /\ Js.free_of c s.
Proof.
  unfold Js.free_of. simpl. destruct (Ascii.eqb_spec a c); split.
  - intros H. discriminate H.
  - intros [H _]. contradiction.
  - intros H. split; [assumption | exact H].
  - intros [_ H]. exact H.
Qed.

Lemma take_app s t : Js.take (String.length s) (s +:+ t) = s.
Proof. induction s as [|a s IH]; simpl; [now destruct t | now rewrite IH]. Qed.

Lemma strip_prefix_app s t : Js.strip_prefix s (s +:+ t) = Some t.
Proof.
  induction s as [|a s IH]; simpl; [reflexivity |].
  now rewrite Ascii.eqb_refl.
Qed.

Lemma strip_prefix_Some s t u : Js.strip_prefix s t = Some u -> t = s +:+ u.
Proof.
  revert t. induction s as [|a s IH]; intros t H; simpl in H.
  - now injection H as ->.
  - destruct t as [|b t]; [discriminate |].
    destruct (Ascii.eqb_spec a b) as [->|]; [| discriminate].
    simpl. f_equal. now apply IH.
Qed.

(** Two splittings of one string at a separator, the parts before it free
    of the separator, are the same splitting. *)
Lemma split_at_first c s1 s2 t1 t2 :
  Js.free_of c s1 -> Js.free_of c s2 ->
  s1 +:+ String c t1 = s2 +:+ String c t2 -> s1 = s2 /\ t1 = t2.
Proof.
  revert s2. induction s1 as [|a s1 IH]; intros [|b s2] F1 F2 H; simpl in H.
  - injection H as ->. now split.
  - injection H as <- _. apply free_of_cons in F2 as [F2 _]. contradiction.
  - injection H as -> _. apply free_of_cons in F1 as [F1 _]. contradiction.
  - injection H as -> H.
    apply free_of_cons in F1 as [_ F1]. apply free_of_cons in F2 as [_ F2].
    destruct (IH s2 F1 F2 H) as [-> ->]. now split.
Qed.

End StringFacts.

(** ** Facts about the matcher *)

Section MatcherFacts.

Context {A : Type}.
Implicit Types (s g rest : string) (c : ascii).

Lemma consumed_app g rest : Regex.consumed (g +:+ rest) rest = g.
Proof.
  unfold Regex.consumed. rewrite length_app.
  replace (String.length g + String.length rest - String.length rest)
    with (String.length g) by lia.
  apply take_app.
Qed.

(** A successful [[^c]+] consumed a non-empty run free of [c]. *)
Lemma not_char_plus_sound c s (k : string -> option A) x :
  Regex.not_char_plus c s k = Some x ->
  exists g rest, s = g +:+ rest /\ g <> "" /\ Js.free_of c g /\
                 k rest = Some x.
Proof.
  induction s as [|a s IH]; simpl; [discriminate |].
  destruct (Ascii.eqb_spec a c) as [|Hac]; [discriminate |].
  destruct (Regex.not_char_plus c s k) as [y|] eqn:E.
  - intros [= ->]. destruct (IH eq_refl) as (g & rest & -> & _ & F & K).
    exists (String a g), rest. repeat split; try assumption.
    + discriminate.
    + apply free_of_cons. now split.
  - intros K. exists (String a ""), s. repeat split; try assumption.
    + discriminate.
    + apply free_of_cons. now split.
Qed.

(** When the rest of the pattern can only go on at a [c], [[^c]+] takes the
    whole run up to the next [c] (or the end) and no backtracking helps. *)
Lemma not_char_plus_run c g rest (k : string -> option A) :
  g <> "" -> Js.free_of c g ->
  (rest = "" \/ exists r, rest = String c r) ->
  (forall a t, a <> c -> k (String a t) = None) ->
  Regex.not_char_plus c (g +:+ rest) k = k rest.
Proof.
  intros Hg F Hrest Hk.
  induction g as [|a g IH]; [contradiction |].
  apply free_of_cons in F as [Hac F]. simpl.
  destruct (Ascii.eqb_spec a c) as [|_]; [contradiction |].
  destruct g as [|b g].
  - simpl. destruct Hrest as [-> | [r ->]]; simpl.
    + reflexivity.
    + now rewrite Ascii.eqb_refl.
  - rewrite IH by (discriminate || assumption).
    destruct (k rest) as [y|] eqn:E; [reflexivity |].
    simpl. apply free_of_cons in F as [Hbc _]. now apply Hk.
Qed.

End MatcherFacts.

(** ** The URL pattern *)

Section PatternFacts.

Import Regex.

Lemma font_css_pattern_parts :
  font_css_pattern = Seq (Opt locale_part) fonts_part.
Proof. reflexivity. Qed.

Context {A : Type}.
Implicit Types (s g : string) (c : captures)
         (k : string -> captures -> option A).

Lemma fonts_part_needs_slash a s c k :
  a <> "/"%char -> run fonts_part (String a s) c k = None.
Proof.
  intros Ha. unfold fonts_part. cbn [run Js.strip_prefix].
  destruct (Ascii.eqb_spec "/"%char a) as [<-|_];
    [contradiction | reflexivity].
Qed.

(** On [/<g>/fonts.css] the second half matches, capturing [g]. *)
Lemma fonts_part_run g c k :
  g <> "" -> Js.free_of "/" g ->
  run fonts_part ("/" +:+ g +:+ "/fonts.css") c k = k "" (set_capture 2 g c).
Proof.
  intros Hg F. unfold fonts_part. cbn [run Js.strip_prefix String.append].
  rewrite Ascii.eqb_refl.
  rewrite not_char_plus_run; try assumption.
  - cbv beta.
    change (Js.strip_prefix "/fonts.css" "/fonts.css") with (Some "").
    cbv iota. now rewrite consumed_app.
  - right. now eexists.
  - intros a t Ha. cbn [Js.strip_prefix].
    destruct (Ascii.eqb_spec "/"%char a) as [<-|_];
      [contradiction | reflexivity].
Qed.

(** ... and it matches nothing else. *)
Lemma fonts_part_sound s c k x :
  run fonts_part s c k = Some x ->
  exists g, s = "/" +:+ g +:+ "/fonts.css" /\ g <> "" /\ Js.free_of "/" g /\
            k "" (set_capture 2 g c) = Some x.
Proof.
  unfold fonts_part. cbn [run].
  destruct (Js.strip_prefix "/" s) as [s1|] eqn:E1; [| discriminate].
  apply strip_prefix_Some in E1 as ->.
  intros H. apply not_char_plus_sound in H as (g & rest & -> & Hg & F & H).
  destruct (Js.strip_prefix "/fonts.css" rest) as [s2|] eqn:E2;
    [| discriminate].
  apply strip_prefix_Some in E2 as ->.
  destruct s2; [| discriminate].
  rewrite consumed_app in H. exists g. now repeat split.
Qed.

(** On [/<g1>/<g2>/fonts.css] the first half, tried first, captures [g1]
    and the second half goes on from there. *)
Lemma locale_part_run g1 t c k :
  g1 <> "" -> Js.free_of "/" g1 ->
  run locale_part ("/" +:+ g1 +:+ "/" +:+ t) c
      (fun s' c' => run fonts_part s' c' k)
  = run fonts_part ("/" +:+ t) (set_capture 1 g1 c) k.
Proof.
  intros Hg F. unfold locale_part. cbn [run Js.strip_prefix String.append].
  rewrite Ascii.eqb_refl.
  rewrite not_char_plus_run; try assumption.
  - now rewrite consumed_app.
  - right. now eexists.
  - intros a u Ha. now apply fonts_part_needs_slash.
Qed.

Lemma locale_part_sound s c k x :
  run locale_part s c (fun s' c' => run fonts_part s' c' k) = Some x ->
  exists g1 rest, s = "/" +:+ g1 +:+ rest /\ g1 <> "" /\ Js.free_of "/" g1 /\
                  run fonts_part rest (set_capture 1 g1 c) k = Some x.
Proof.
  unfold locale_part. cbn [run].
  destruct (Js.strip_prefix "/" s) as [s1|] eqn:E1; [| discriminate].
  apply strip_prefix_Some in E1 as ->.
  intros H. apply not_char_plus_sound in H as (g & rest & -> & Hg & F & H).
  rewrite consumed_app in H. exists g, rest. now repeat split.
Qed.

End PatternFacts.

Lemma match_here_with_locale g1 g2 :
  segment g1 -> segment g2 ->
  Regex.match_here font_css_pattern (with_locale g1 g2)
  = Some (captured (Some g1) g2).
Proof.
  intros [N1 F1] [N2 F2]. unfold Regex.match_here, with_locale.
  rewrite font_css_pattern_parts. cbn [Regex.run].
  rewrite locale_part_run by assumption.
  now rewrite fonts_part_run by assumption.
Qed.

Lemma match_here_sound s m :
  Regex.match_here font_css_pattern s = Some m ->
  (exists g1 g2, segment g1 /\ segment g2 /\ s = with_locale g1 g2 /\
                 m = captured (Some g1) g2)
  \/ (exists g2, segment g2 /\ s = without_locale g2 /\ m = captured None g2).
Proof.
  unfold Regex.match_here. rewrite font_css_pattern_parts. cbn [Regex.run].
  destruct (Regex.run locale_part s _ _) as [x|] eqn:E.
  - intros [= ->]. left.
    apply locale_part_sound in E as (g1 & rest & -> & N1 & F1 & E).
    apply fonts_part_sound in E as (g2 & -> & N2 & F2 & [= <-]).
    exists g1, g2. now repeat split.
  - intros H. right.
    apply fonts_part_sound in H as (g2 & -> & N2 & F2 & [= <-]).
    exists g2. now repeat split.
Qed.

(** Slashes tell the two shapes apart, and from any longer text. *)
Lemma count_with_locale g1 g2 :
  segment g1 -> segment g2 -> Js.count "/" (with_locale g1 g2) = 3.
Proof.
  intros [_ F1] [_ F2]. unfold with_locale, Js.free_of in *.
  cbn [String.append Js.count]. rewrite Ascii.eqb_refl.
  rewrite count_app. cbn [String.append Js.count]. rewrite Ascii.eqb_refl.
  rewrite count_app, F1, F2. reflexivity.
Qed.

Lemma count_without_locale g2 :
  segment g2 -> Js.count "/" (without_locale g2) = 2.
Proof.
  intros [_ F2]. unfold without_locale, Js.free_of in *.
  cbn [String.append Js.count]. rewrite Ascii.eqb_refl.
  rewrite count_app, F2. reflexivity.
Qed.

(** No attempt succeeds at a position before the last three slashes. *)
Lemma match_here_too_early a pre g1 g2 :
  segment g1 -> segment g2 ->
  Regex.match_here font_css_pattern (String a pre +:+ with_locale g1 g2)
  = None.
Proof.
  intros S1 S2.
  destruct (Regex.match_here _ _) as [m|] eqn:E; [exfalso | reflexivity].
  pose proof (count_with_locale g1 g2 S1 S2) as C.
  apply match_here_sound in E as [(h1 & h2 & T1 & T2 & E & _)|(h2 & T2 & E & _)];
    pose proof (f_equal (Js.count "/") E) as N;
    rewrite count_app, C in N.
  - rewrite (count_with_locale h1 h2 T1 T2) in N.
    cbn [String.append] in E. unfold with_locale in E at 2.
    cbn [String.append] in E. injection E as -> _.
    cbn [Js.count] in N. rewrite Ascii.eqb_refl in N. lia.
  - rewrite (count_without_locale h2 T2) in N. lia.
Qed.

Lemma exec_unfold r s :
  Regex.exec r s =
  match Regex.match_here r s with
  | Some c => Some c
  | None => match s with
            | EmptyString => None
            | String _ s' => Regex.exec r s'
            end
  end.
Proof. destruct s; reflexivity. Qed.

(** The leftmost attempt that succeeds is the one at the third slash from
    the end, whatever comes before. *)
Lemma exec_suffix pre g1 g2 :
  segment g1 -> segment g2 ->
  Regex.exec font_css_pattern (pre +:+ with_locale g1 g2)
  = Some (captured (Some g1) g2).
Proof.
  intros S1 S2. induction pre as [|a pre IH].
  - rewrite exec_unfold. cbn [String.append].
    now rewrite match_here_with_locale.
  - rewrite exec_unfold, match_here_too_early by assumption.
    cbn [String.append]. exact IH.
Qed.

(** Whatever [exec] finds is one of the two shapes, so group 2 is set. *)
Lemma exec_sound s m :
  Regex.exec font_css_pattern s = Some m ->
  exists g1 g2, segment g2 /\ m = captured g1 g2.
Proof.
  induction s as [|a s IH]; rewrite exec_unfold;
    destruct (Regex.match_here font_css_pattern _) as [m'|] eqn:E;
    try discriminate; try exact IH;
    intros [= ->];
    apply match_here_sound in E
      as [(g1 & g2 & _ & S2 & _ & ->)|(g2 & S2 & _ & ->)];
    eauto.
Qed.

Lemma locale_of_nonempty m : locale_of m <> "".
Proof. unfold locale_of. now destruct (m 1) as [[|a l]|]. Qed.

(** A matched request with a user agent goes to [get_css] with the
    resolved user agent, the locale and the fonts, and ends as the callback
    decides. *)
Lemma responder_calls_get_css env req st m ua fonts :
  request_match req = Some m -> fonts_of m = Some fonts ->
  resolve_ua st req = Some ua -> ua <> "" ->
  font_css_responder env req st
  = on_css (get_css env ua (locale_of m) fonts st).
Proof.
  intros Hm Hf Hua Hne. unfold font_css_responder. rewrite Hm, Hf, Hua.
  destruct ua as [|a ua]; [contradiction |].
  pose proof (locale_of_nonempty m) as Hl.
  destruct (locale_of m); [contradiction | reflexivity].
Qed.

(** ** The responder's matching *)

(** C2: a GET request for [/en/Arial,Roboto/fonts.css] matches with locale
    ["en"] and fonts [["Arial"; "Roboto"]], and a GET request for
    [/Arial,Roboto/fonts.css] matches with the locale ["default"]; in both
    cases the responder, given a user agent, calls [get_css] with that
    locale and those fonts and ends as its callback decides. *)
Theorem request_locale_and_fonts req :
  method req = "GET" ->
  (url req = "/en/Arial,Roboto/fonts.css" ->
   (exists m, request_match req = Some m /\ locale_of m = "en" /\
              fonts_of m = Some ["Arial"; "Roboto"])
   /\ forall env st ua, resolve_ua st req = Some ua -> ua <> "" ->
        font_css_responder env req st
        = on_css (get_css env ua "en" ["Arial"; "Roboto"] st))
  /\ (url req = "/Arial,Roboto/fonts.css" ->
      (exists m, request_match req = Some m /\ locale_of m = "default" /\
                 fonts_of m = Some ["Arial"; "Roboto"])
      /\ forall env st ua, resolve_ua st req = Some ua -> ua <> "" ->
           font_css_responder env req st
           = on_css (get_css env ua "default" ["Arial"; "Roboto"] st)).
Proof.
  intros Hm. split; intros Hu.
  - assert (Hreq : request_match req
                   = Some (captured (Some "en") "Arial,Roboto")).
    { unfold request_match. rewrite Hm, Hu.
      apply (exec_suffix "" "en" "Arial,Roboto");
        split; (discriminate || reflexivity). }
    split.
    + exists (captured (Some "en") "Arial,Roboto"). now repeat split.
    + intros env st ua Hua Hne.
      exact (responder_calls_get_css env req st _ ua ["Arial"; "Roboto"]
               Hreq eq_refl Hua Hne).
  - assert (Hreq : request_match req = Some (captured None "Arial,Roboto")).
    { unfold request_match. rewrite Hm, Hu. vm_compute. reflexivity. }
    split.
    + exists (captured None "Arial,Roboto"). now repeat split.
    + intros env st ua Hua Hne.
      exact (responder_calls_get_css env req st _ ua ["Arial"; "Roboto"]
               Hreq eq_refl Hua Hne).
Qed.

Lemma request_locale_and_fonts_witness :
  ((exists m,
       request_match (get_request "/en/Arial,Roboto/fonts.css"
                                  (Some "Mozilla/5.0"))
       = Some m /\ locale_of m = "en" /\
       fonts_of m = Some ["Arial"; "Roboto"])
   /\ font_css_responder env_ok
        (get_request "/en/Arial,Roboto/fonts.css" (Some "Mozilla/5.0")) initial
      = on_css (get_css env_ok "Mozilla/5.0" "en" ["Arial"; "Roboto"] initial))
  /\ ((exists m,
          request_match (get_request "/Arial,Roboto/fonts.css"
                                     (Some "Mozilla/5.0"))
          = Some m /\ locale_of m = "default" /\
          fonts_of m = Some ["Arial"; "Roboto"])
      /\ font_css_responder env_ok
           (get_request "/Arial,Roboto/fonts.css" (Some "Mozilla/5.0")) initial
         = on_css (get_css env_ok "Mozilla/5.0" "default" ["Arial"; "Roboto"]
                     initial)).
Proof.
  split.
  - destruct (proj1 (request_locale_and_fonts
                       (get_request "/en/Arial,Roboto/fonts.css"
                                    (Some "Mozilla/5.0")) eq_refl) eq_refl)
      as [Hmatch Hcall].
    split; [exact Hmatch |].
    apply (Hcall env_ok initial "Mozilla/5.0"); [reflexivity | discriminate].
  - destruct (proj2 (request_locale_and_fonts
                       (get_request "/Arial,Roboto/fonts.css"
                                    (Some "Mozilla/5.0")) eq_refl) eq_refl)
      as [Hmatch Hcall].
    split; [exact Hmatch |].
    apply (Hcall env_ok initial "Mozilla/5.0"); [reflexivity | discriminate].
Defined.

(** C8: a request that does not match, because its method is not GET (even
    on a URL of the right form) or because the pattern finds nothing in its
    URL, goes to the next handler: no exception, no response, and nothing
    else happens. *)
Theorem non_match_passes_through env req st :
  method req <> "GET" \/ Regex.exec font_css_pattern (url req) = None ->
  font_css_responder env req st = (Next, st).
Proof.
  intros H. unfold font_css_responder, request_match.
  destruct (String.eqb_spec (method req) "GET") as [E|_].
  - destruct H as [H|H]; [contradiction | now rewrite H].
  - reflexivity.
Qed.

Lemma non_match_passes_through_witness :
  Regex.exec font_css_pattern "/en/Arial,Roboto/fonts.css" <> None
  /\ font_css_responder env_ok (post_request "/en/Arial,Roboto/fonts.css")
                        initial = (Next, initial)
  /\ font_css_responder env_ok (get_request "/index.html" (Some "Mozilla/5.0"))
                        initial = (Next, initial).
Proof.
  split; [| split].
  - vm_compute. discriminate.
  - apply non_match_passes_through. left. simpl. discriminate.
  - apply non_match_passes_through. right. vm_compute. reflexivity.
Defined.

(** C9: the pattern is anchored at the end only. A GET request whose URL
    ends with [/<seg1>/<seg2>/fonts.css], both segments non-empty and free of
    slashes, matches with locale [seg1] and fonts [seg2] split on commas,
    whatever precedes; with a user agent, [get_css] is called with them. *)
Theorem suffix_match req pre seg1 seg2 :
  method req = "GET" ->
  url req = pre +:+ "/" +:+ seg1 +:+ "/" +:+ seg2 +:+ "/fonts.css" ->
  seg1 <> "" -> Js.free_of "/" seg1 ->
  seg2 <> "" -> Js.free_of "/" seg2 ->
  (exists m, request_match req = Some m /\ locale_of m = seg1 /\
             fonts_of m = Some (Js.split "," seg2))
  /\ (forall env st ua, resolve_ua st req = Some ua -> ua <> "" ->
        font_css_responder env req st
        = on_css (get_css env ua seg1 (Js.split "," seg2) st)).
Proof.
  intros Hm Hu N1 F1 N2 F2.
  assert (Hreq : request_match req = Some (captured (Some seg1) seg2)).
  { unfold request_match. rewrite Hm, Hu.
    apply (exec_suffix pre seg1 seg2); now split. }
  assert (Hl : locale_of (captured (Some seg1) seg2) = seg1).
  { unfold locale_of, captured. cbn. now destruct seg1. }
  split.
  - exists (captured (Some seg1) seg2). now repeat split.
  - intros env st ua Hua Hne.
    rewrite (responder_calls_get_css env req st _ ua (Js.split "," seg2)
               Hreq eq_refl Hua Hne).
    now rewrite Hl.
Qed.

Lemma suffix_match_witness :
  (exists m, request_match (get_request "/extra/en/Arial/fonts.css" None)
             = Some m /\ locale_of m = "en" /\ fonts_of m = Some ["Arial"])
  /\ (forall env st ua,
        resolve_ua st (get_request "/extra/en/Arial/fonts.css" None) = Some ua ->
        ua <> "" ->
        font_css_responder env (get_request "/extra/en/Arial/fonts.css" None) st
        = on_css (get_css env ua "en" ["Arial"] st)).
Proof.
  apply (suffix_match (get_request "/extra/en/Arial/fonts.css" None)
                      "/extra" "en" "Arial");
    (reflexivity || discriminate).
Defined.

(** C10: a matched GET request for which neither the configuration nor the
    [user-agent] header gives a user agent is passed to the next handler,
    and [get_css] is not called: the state, its record of calls included,
    is as before. *)
Theorem no_user_agent_passes_through env req st m :
  request_match req = Some m ->
  Js.truthy (resolve_ua st req) = false ->
  font_css_responder env req st = (Next, st).
Proof.
  intros Hm Hua. unfold font_css_responder. rewrite Hm.
  unfold request_match in Hm.
  destruct (String.eqb (method req) "GET"); [| discriminate].
  apply exec_sound in Hm as (g1 & g2 & _ & ->).
  unfold fonts_of, captured. cbn.
  destruct (resolve_ua st req) as [[|a ua]|]; (reflexivity || discriminate).
Qed.

Lemma no_user_agent_passes_through_witness :
  opt_ua (config initial) = None
  /\ headers (get_request "/en/Arial/fonts.css" None) !! "user-agent" = None
  /\ font_css_responder env_ok (get_request "/en/Arial/fonts.css" None) initial
     = (Next, initial).
Proof.
  split; [reflexivity | split; [reflexivity |]].
  eapply no_user_agent_passes_through.
  - vm_compute. reflexivity.
  - reflexivity.
Defined.

(** ** The cache *)

Lemma prepareTmpPath_record env e st :
  resolved_tmp_path env (record e st) = resolved_tmp_path env st.
Proof.
  unfold resolved_tmp_path, prepareTmpPath. cbn [cssTmpPath record].
  destruct (Js.truthy (cssTmpPath st)); [reflexivity |].
  now destruct (tmp_dir env).
Qed.

Lemma prepareTmpPath_keeps env st r st' :
  prepareTmpPath env st = (r, st') ->
  cssCache st' = cssCache st /\ disk st' = disk st.
Proof.
  unfold prepareTmpPath. destruct (Js.truthy (cssTmpPath st)).
  - now intros [= _ <-].
  - destruct (tmp_dir env); now intros [= _ <-].
Qed.

(** [get_css] on a miss, step by step. *)
Lemma get_css_generator_error env ua locale fonts st e :
  cssCache st !! getCacheKey ua locale fonts = None ->
  get_font_css env ua locale fonts = inl e ->
  get_css env ua locale fonts st
  = (Err e, record (CalledGenerator ua locale fonts)
                   (record (CalledGetCss ua locale fonts) st)).
Proof.
  intros Hmiss Hgen. unfold get_css, generate_css. cbn [cssCache record].
  now rewrite Hmiss, Hgen.
Qed.

Lemma get_css_written env ua locale fonts st cssStr dir :
  cssCache st !! getCacheKey ua locale fonts = None ->
  get_font_css env ua locale fonts = inr cssStr ->
  resolved_tmp_path env st = Some dir ->
  exists st3,
    cssCache st3 = cssCache st /\ disk st3 = disk st /\
    (cssTmpPath st3 = Some dir) /\
    let key := getCacheKey ua locale fonts in
    let path := dir +:+ "/" +:+ css_file_name key in
    get_css env ua locale fonts st =
    match write_file env path cssStr with
    | Some err => (Err err, st3)
    | None =>
        (Ok (mkCssObj cssStr (Some path)),
         set_cssCache (<[key := mkCssObj cssStr (Some path)]> (cssCache st3))
                      (set_disk (<[path := cssStr]> (disk st3)) st3))
    end.
Proof.
  intros Hmiss Hgen Hdir. unfold get_css, generate_css.
  cbn [cssCache record]. rewrite Hmiss, Hgen.
  rewrite <- (prepareTmpPath_record env (CalledGetCss ua locale fonts)) in Hdir.
  rewrite <- (prepareTmpPath_record env (CalledGenerator ua locale fonts))
    in Hdir.
  unfold resolved_tmp_path in Hdir.
  destruct (prepareTmpPath env _) as [[err tmpPath] st2] eqn:E.
  cbn in Hdir. subst tmpPath. cbn [path_join css].
  destruct (prepareTmpPath_keeps _ _ _ _ E) as [Hc Hd].
  exists (record (CalledWriteFile
                    (dir +:+ "/" +:+ css_file_name (getCacheKey ua locale fonts))
                    cssStr) st2).
  cbn [cssCache disk cssTmpPath record]. repeat split; try assumption.
  unfold prepareTmpPath in E. cbn [cssTmpPath record] in E.
  destruct (Js.truthy (cssTmpPath st)).
  - now injection E as _ E <-.
  - destruct (tmp_dir env); injection E as _ E <-; [discriminate |].
    cbn. now f_equal.
Qed.

(** Whatever [get_css] ends with other than an entry, the cache is as it
    was. *)
Lemma get_css_no_entry_no_insert env ua locale fonts st r st' :
  get_css env ua locale fonts st = (r, st') ->
  (forall o, r <> Ok o) -> cssCache st' = cssCache st.
Proof.
  unfold get_css, generate_css. cbn [cssCache record].
  destruct (cssCache st !! getCacheKey ua locale fonts) as [hit|].
  { intros [= <- _] H. now contradiction (H hit). }
  destruct (get_font_css env ua locale fonts) as [e|cssStr].
  { now intros [= _ <-]. }
  destruct (prepareTmpPath env _) as [[err tmpPath] st2] eqn:E.
  apply prepareTmpPath_keeps in E as [Hc _]. cbn [cssCache record] in Hc.
  destruct (path_join tmpPath _) as [e|path].
  { now intros [= _ <-]. }
  cbn [css]. destruct (write_file env path cssStr) as [e|].
  - now intros [= _ <-].
  - intros [= <- _] H. now contradiction (H (mkCssObj cssStr (Some path))).
Qed.

(** C7: on a miss, an error of the generator and an error of the file write
    both reach the caller as they are, and the cache holds what it held
    before; more generally no call that ends without an entry changes the
    cache. *)
Theorem get_css_failure_leaves_cache env ua locale fonts st :
  (forall e,
      cssCache st !! getCacheKey ua locale fonts = None ->
      get_font_css env ua locale fonts = inl e ->
      exists st', get_css env ua locale fonts st = (Err e, st') /\
                  cssCache st' = cssCache st)
  /\ (forall cssStr dir e,
         cssCache st !! getCacheKey ua locale fonts = None ->
         get_font_css env ua locale fonts = inr cssStr ->
         resolved_tmp_path env st = Some dir ->
         write_file env
           (dir +:+ "/" +:+ css_file_name (getCacheKey ua locale fonts))
           cssStr = Some e ->
         exists st', get_css env ua locale fonts st = (Err e, st') /\
                     cssCache st' = cssCache st)
  /\ (forall r st',
         get_css env ua locale fonts st = (r, st') ->
         (forall o, r <> Ok o) -> cssCache st' = cssCache st).
Proof.
  split; [| split].
  - intros e Hmiss Hgen. eexists. split.
    + now apply get_css_generator_error.
    + reflexivity.
  - intros cssStr dir e Hmiss Hgen Hdir Hw.
    destruct (get_css_written env ua locale fonts st cssStr dir Hmiss Hgen Hdir)
      as (st3 & Hc & _ & _ & Heq).
    cbv zeta in Heq. rewrite Hw in Heq. now exists st3.
  - intros r st'. apply get_css_no_entry_no_insert.
Qed.

(** C1, as the code has it: when a call to [get_css] ends with an entry, a
    second call with the same arguments ends with that same entry, hence the
    same [cssPath], whatever the collaborators would answer: it only looks
    the key up, the generator is not invoked and nothing is written. *)
Theorem get_css_twice env1 env2 ua locale fonts st o st1 :
  get_css env1 ua locale fonts st = (Ok o, st1) ->
  get_css env2 ua locale fonts st1
  = (Ok o, record (CalledGetCss ua locale fonts) st1)
  /\ generator_calls (record (CalledGetCss ua locale fonts) st1)
     = generator_calls st1.
Proof.
  intros H. split; [| reflexivity].
  assert (Hhit : cssCache st1 !! getCacheKey ua locale fonts = Some o).
  { revert H. unfold get_css, generate_css. cbn [cssCache record].
    destruct (cssCache st !! getCacheKey ua locale fonts) as [hit|] eqn:Hc.
    { now intros [= <- <-]. }
    destruct (get_font_css env1 ua locale fonts) as [e|cssStr];
      [discriminate |].
    destruct (prepareTmpPath env1 _) as [[err tmpPath] st2].
    destruct (path_join tmpPath _) as [e|path]; [discriminate |].
    cbn [css]. destruct (write_file env1 path cssStr); [discriminate |].
    intros [= <- <-]. cbn [cssCache set_cssCache]. apply lookup_insert_eq. }
  unfold get_css. cbn [cssCache record]. now rewrite Hhit.
Qed.

Lemma get_css_twice_witness :
  exists o st1,
    get_css env_ok "Mozilla/5.0" "en" ["Arial"] initial = (Ok o, st1)
    /\ cssPath o = Some "/tmp/fonts/Mozilla-5-0-en-Arial.css"
    /\ get_css env_invalid_font "Mozilla/5.0" "en" ["Arial"] st1
       = (Ok o, record (CalledGetCss "Mozilla/5.0" "en" ["Arial"]) st1)
    /\ generator_calls (record (CalledGetCss "Mozilla/5.0" "en" ["Arial"]) st1)
       = generator_calls st1.
Proof.
  destruct (get_css env_ok "Mozilla/5.0" "en" ["Arial"] initial)
    as [r st1] eqn:E.
  assert (Hr : r = Ok (mkCssObj "@font-face{}"
                         (Some "/tmp/fonts/Mozilla-5-0-en-Arial.css"))).
  { apply (f_equal fst) in E. cbn [fst] in E. rewrite <- E.
    vm_compute. reflexivity. }
  subst r. eexists _, st1. split; [reflexivity |]. split; [reflexivity |].
  exact (get_css_twice env_ok env_invalid_font _ _ _ initial _ st1 E).
Defined.

(** C1 as stated, for every tuple, fails where generation fails: nothing is
    cached, and the second call invokes the generator once more. *)
Lemma failed_get_css_is_not_cached :
  exists e st1 st2,
    get_css env_invalid_font "Mozilla/5.0" "en" ["NoSuchFont"] initial
    = (Err e, st1)
    /\ get_css env_invalid_font "Mozilla/5.0" "en" ["NoSuchFont"] st1
       = (Err e, st2)
    /\ generator_calls st1 = 1 /\ generator_calls st2 = 2
    /\ cssCache st2 = ∅.
Proof.
  do 3 eexists. split; [| split; [| split; [| split]]].
  - apply get_css_generator_error; reflexivity.
  - apply get_css_generator_error; reflexivity.
  - reflexivity.
  - reflexivity.
  - reflexivity.
Qed.

(** ** The responder's error policy *)

(** C4: for a matched request with a user agent, an [InvalidFontError] from
    [get_css] makes the responder call the next handler, and any other error
    from [get_css] leaves the handler as an uncaught exception. *)
Theorem responder_error_policy env req st m ua fonts e st' :
  request_match req = Some m -> fonts_of m = Some fonts ->
  resolve_ua st req = Some ua -> ua <> "" ->
  get_css env ua (locale_of m) fonts st = (Err e, st') ->
  (instanceof_InvalidFontError e = true ->
   font_css_responder env req st = (Next, st'))
  /\ (instanceof_InvalidFontError e = false ->
      font_css_responder env req st = (Uncaught e, st')).
Proof.
  intros Hm Hf Hua Hne Hget.
  rewrite (responder_calls_get_css env req st m ua fonts Hm Hf Hua Hne), Hget.
  cbn [on_css]. split; intros ->; reflexivity.
Qed.

Lemma get_css_failure_leaves_cache_witness :
  (exists st',
      get_css env_invalid_font "Mozilla/5.0" "en" ["NoSuchFont"] initial
      = (Err (InvalidFontError "unknown font"), st')
      /\ cssCache st' = cssCache initial)
  /\ (exists st',
         get_css env_disk_full "Mozilla/5.0" "en" ["Arial"] initial
         = (Err (OtherError "Error" "ENOSPC"), st')
         /\ cssCache st' = cssCache initial).
Proof.
  split.
  - apply (proj1 (get_css_failure_leaves_cache
                    env_invalid_font "Mozilla/5.0" "en" ["NoSuchFont"] initial));
      reflexivity.
  - apply (proj1 (proj2 (get_css_failure_leaves_cache
                           env_disk_full "Mozilla/5.0" "en" ["Arial"] initial))
             "@font-face{}" "/tmp/fonts");
      reflexivity.
Defined.

Lemma responder_error_policy_witness :
  font_css_responder env_invalid_font
    (get_request "/en/NoSuchFont/fonts.css" (Some "Mozilla/5.0")) initial
  = (Next,
     record (CalledGenerator "Mozilla/5.0" "en" ["NoSuchFont"])
            (record (CalledGetCss "Mozilla/5.0" "en" ["NoSuchFont"]) initial))
  /\ exists st',
      font_css_responder env_disk_full
        (get_request "/en/Arial/fonts.css" (Some "Mozilla/5.0")) initial
      = (Uncaught (OtherError "Error" "ENOSPC"), st').
Proof.
  split.
  - apply (proj1 (responder_error_policy env_invalid_font
                    (get_request "/en/NoSuchFont/fonts.css" (Some "Mozilla/5.0"))
                    initial (captured (Some "en") "NoSuchFont")
                    "Mozilla/5.0" ["NoSuchFont"]
                    (InvalidFontError "unknown font") _
                    eq_refl eq_refl eq_refl ltac:(discriminate) eq_refl)).
    reflexivity.
  - eexists.
    apply (proj2 (responder_error_policy env_disk_full
                    (get_request "/en/Arial/fonts.css" (Some "Mozilla/5.0"))
                    initial (captured (Some "en") "Arial")
                    "Mozilla/5.0" ["Arial"]
                    (OtherError "Error" "ENOSPC") _
                    eq_refl eq_refl eq_refl ltac:(discriminate) eq_refl)).
    reflexivity.
Defined.

(** ** The file of a cache key *)

Lemma replace_non_word_get by_ s i :
  String.get i (replace_non_word by_ s)
  = (fun a => if is_word_char a then a else by_) <$> String.get i s.
Proof.
  revert i. induction s as [|a s IH]; intros [|i]; cbn; try reflexivity.
  apply IH.
Qed.

Lemma replace_non_word_length by_ s :
  String.length (replace_non_word by_ s) = String.length s.
Proof. induction s as [|a s IH]; cbn; [reflexivity | now rewrite IH]. Qed.

Lemma replace_non_word_keeps s :
  keeps_name s = true -> replace_non_word "-" s = s.
Proof.
  induction s as [|a s IH]; cbn [keeps_name replace_non_word];
    [reflexivity |].
  intros [Ha Hs]%andb_prop. rewrite (IH Hs). f_equal.
  destruct (is_word_char a); [reflexivity |].
  cbn in Ha. now apply Ascii.eqb_eq in Ha.
Qed.

Lemma file_paths_differ dir n1 n2 :
  n1 <> n2 -> dir +:+ "/" +:+ n1 +:+ ".css" <> dir +:+ "/" +:+ n2 +:+ ".css".
Proof.
  intros Hne E. apply Hne.
  apply String.app_inj in E. apply (String.app_inj "/") in E.
  now apply app_cancel_r in E.
Qed.

Lemma tmp_path_memoised env st dir :
  cssTmpPath st = Some dir -> dir <> "" -> resolved_tmp_path env st = Some dir.
Proof.
  intros H Hne. unfold resolved_tmp_path, prepareTmpPath. rewrite H.
  destruct dir; [contradiction | reflexivity].
Qed.

(** The file of a cache key: on a miss that generates and writes, the CSS
    of a key goes to the file [<tmp>/<name>.css] where [name] is the key with
    each character that is not a word character replaced by ['-'], so of
    the same length; the directory is memoised and later calls use the same
    one. Keys whose names differ get different files, and in particular
    distinct keys made of word characters and ['-'] only. *)
Theorem cache_file_of_key env ua locale fonts st cssStr dir :
  let key := getCacheKey ua locale fonts in
  let path := dir +:+ "/" +:+ replace_non_word "-" key +:+ ".css" in
  cssCache st !! key = None ->
  get_font_css env ua locale fonts = inr cssStr ->
  resolved_tmp_path env st = Some dir ->
  write_file env path cssStr = None ->
  (exists st',
      get_css env ua locale fonts st = (Ok (mkCssObj cssStr (Some path)), st')
      /\ disk st' !! path = Some cssStr
      /\ cssTmpPath st' = Some dir
      /\ (dir <> "" -> forall env', resolved_tmp_path env' st' = Some dir))
  /\ (String.length (replace_non_word "-" key) = String.length key
      /\ forall i, String.get i (replace_non_word "-" key)
                   = (fun a => if is_word_char a then a else "-"%char)
                       <$> String.get i key)
  /\ (forall key',
         replace_non_word "-" key' <> replace_non_word "-" key ->
         dir +:+ "/" +:+ css_file_name key' <> path)
  /\ (forall key',
         keeps_name key = true -> keeps_name key' = true -> key' <> key ->
         dir +:+ "/" +:+ css_file_name key' <> path).
Proof.
  intros key path Hmiss Hgen Hdir Hw. split; [| split; [| split]].
  - destruct (get_css_written env ua locale fonts st cssStr dir Hmiss Hgen Hdir)
      as (st3 & _ & _ & Ht & Heq).
    cbv zeta in Heq. fold key in Heq. unfold css_file_name in Heq.
    fold path in Heq. rewrite Hw in Heq.
    eexists. split; [exact Heq |]. cbn [disk cssTmpPath set_cssCache set_disk].
    split; [apply lookup_insert_eq |]. split; [exact Ht |].
    intros Hne env'. now apply tmp_path_memoised.
  - split; [apply replace_non_word_length | apply replace_non_word_get].
  - intros key' Hne. now apply file_paths_differ.
  - intros key' K K' Hne. apply file_paths_differ.
    now rewrite (replace_non_word_keeps _ K), (replace_non_word_keeps _ K').
Qed.

Lemma cache_file_of_key_witness :
  exists st',
    get_css env_ok "Mozilla" "en" ["Arial"] initial
    = (Ok (mkCssObj "@font-face{}" (Some "/tmp/fonts/Mozilla-en-Arial.css")),
       st')
    /\ disk st' !! "/tmp/fonts/Mozilla-en-Arial.css" = Some "@font-face{}"
    /\ cssTmpPath st' = Some "/tmp/fonts"
    /\ ("/tmp/fonts" <> "" ->
        forall env', resolved_tmp_path env' st' = Some "/tmp/fonts").
Proof.
  apply (proj1 (cache_file_of_key env_ok "Mozilla" "en" ["Arial"] initial
                  "@font-face{}" "/tmp/fonts"
                  eq_refl eq_refl eq_refl eq_refl)).
Defined.

(** C6 does not hold of the code: two distinct keys that differ in a
    non-word character have one file name. The entries of two user agents
    then share a file, which holds the CSS written last, so the entry of
    the first points at the CSS made for the second, and that is the file
    the responder serves for it. *)
Lemma distinct_keys_share_a_file :
  getCacheKey "Mozilla/5.0" "en" ["Arial"]
  <> getCacheKey "Mozilla 5.0" "en" ["Arial"]
  /\ css_file_name (getCacheKey "Mozilla/5.0" "en" ["Arial"])
     = css_file_name (getCacheKey "Mozilla 5.0" "en" ["Arial"])
  /\ exists o1 st1 o2 st2,
      get_css env_per_ua "Mozilla/5.0" "en" ["Arial"] initial = (Ok o1, st1)
      /\ get_css env_per_ua "Mozilla 5.0" "en" ["Arial"] st1 = (Ok o2, st2)
      /\ css o1 <> css o2
      /\ cssPath o1 = cssPath o2
      /\ cssCache st2 !! getCacheKey "Mozilla/5.0" "en" ["Arial"] = Some o1
      /\ cssCache st2 !! getCacheKey "Mozilla 5.0" "en" ["Arial"] = Some o2
      /\ disk st2 !! "/tmp/fonts/Mozilla-5-0-en-Arial.css" = Some (css o2).
Proof.
  split; [discriminate |]. split; [reflexivity |].
  do 4 eexists.
  split; [vm_compute; reflexivity |].
  split; [vm_compute; reflexivity |].
  split; [discriminate |].
  repeat split; vm_compute; reflexivity.
Qed.

(** ** The cache key *)

Lemma join_cons2 sep x y l :
  Js.join sep (x :: y :: l) = x +:+ sep +:+ Js.join sep (y :: l).
Proof. reflexivity. Qed.

(** Joining with commas loses nothing on non-empty lists of names that
    have no comma. *)
Lemma join_comma_inj (l1 l2 : list string) :
  l1 <> [] -> l2 <> [] ->
  Forall (Js.free_of ",") l1 -> Forall (Js.free_of ",") l2 ->
  Js.join "," l1 = Js.join "," l2 -> l1 = l2.
Proof.
  revert l2. induction l1 as [|x l1 IH]; intros l2 N1 N2 F1 F2 E;
    [contradiction |].
  destruct l2 as [|y l2]; [contradiction |].
  apply Forall_cons_1 in F1 as [Fx F1]. apply Forall_cons_1 in F2 as [Fy F2].
  destruct l1 as [|x' l1], l2 as [|y' l2].
  - cbn in E. now subst.
  - exfalso. rewrite join_cons2 in E. cbn [Js.join] in E.
    apply (f_equal (Js.count ",")) in E. rewrite count_app in E.
    cbn [String.append Js.count] in E. rewrite Ascii.eqb_refl in E.
    unfold Js.free_of in Fx, Fy. lia.
  - exfalso. rewrite join_cons2 in E. cbn [Js.join] in E.
    apply (f_equal (Js.count ",")) in E. rewrite count_app in E.
    cbn [String.append Js.count] in E. rewrite Ascii.eqb_refl in E.
    unfold Js.free_of in Fx, Fy. lia.
  - rewrite !join_cons2 in E. cbn [String.append] in E.
    apply split_at_first in E as [-> E]; try assumption.
    f_equal. apply IH; (discriminate || assumption).
Qed.

(** C3, as the code has it: on tuples whose user agent and locale have no
    ['-'] and whose font list is non-empty with names free of [','], equal
    keys come from equal tuples. *)
Theorem cache_key_injective ua1 locale1 fonts1 ua2 locale2 fonts2 :
  Js.free_of "-" ua1 -> Js.free_of "-" ua2 ->
  Js.free_of "-" locale1 -> Js.free_of "-" locale2 ->
  fonts1 <> [] -> fonts2 <> [] ->
  Forall (Js.free_of ",") fonts1 -> Forall (Js.free_of ",") fonts2 ->
  getCacheKey ua1 locale1 fonts1 = getCacheKey ua2 locale2 fonts2 ->
  ua1 = ua2 /\ locale1 = locale2 /\ fonts1 = fonts2.
Proof.
  intros U1 U2 L1 L2 N1 N2 F1 F2 E. unfold getCacheKey in E.
  cbn [String.append] in E.
  apply split_at_first in E as [-> E]; try assumption.
  apply split_at_first in E as [-> E]; try assumption.
  repeat split. now apply join_comma_inj.
Qed.

Lemma cache_key_injective_witness :
  getCacheKey "Mozilla/5.0" "en" ["Arial"; "Roboto"] = "Mozilla/5.0-en-Arial,Roboto"
  /\ ("Mozilla/5.0" = "Mozilla/5.0" /\ "en" = "en"
      /\ ["Arial"; "Roboto"] = ["Arial"; "Roboto"]).
Proof.
  split; [reflexivity |].
  apply (cache_key_injective "Mozilla/5.0" "en" ["Arial"; "Roboto"]
                             "Mozilla/5.0" "en" ["Arial"; "Roboto"]);
    try reflexivity; try discriminate;
    repeat constructor.
Defined.

(** C3 as stated fails: the separator may occur in the parts. A user agent
    and a locale that share their ['-'] differently, and a font name with a
    comma against two names, give one key, hence one cache entry. *)
Lemma distinct_tuples_share_a_key :
  ("Mozilla", "en-US") <> ("Mozilla-en", "US")
  /\ getCacheKey "Mozilla" "en-US" ["Arial"]
     = getCacheKey "Mozilla-en" "US" ["Arial"]
  /\ ["Arial,Roboto"] <> ["Arial"; "Roboto"]
  /\ getCacheKey "Mozilla" "en" ["Arial,Roboto"]
     = getCacheKey "Mozilla" "en" ["Arial"; "Roboto"]
  /\ exists o st1,
      get_css env_per_ua "Mozilla" "en-US" ["Arial"] initial = (Ok o, st1)
      /\ get_css env_per_ua "Mozilla-en" "US" ["Arial"] st1
         = (Ok o, record (CalledGetCss "Mozilla-en" "US" ["Arial"]) st1)
      /\ css o = "/* Mozilla */".
Proof.
  split; [discriminate |]. split; [reflexivity |].
  split; [discriminate |]. split; [reflexivity |].
  do 2 eexists. split; [vm_compute; reflexivity |].
  split; vm_compute; reflexivity.
Qed.

(** ** Cache-control headers *)

Lemma uint_has_no_point d : Js.count "." (NilEmpty.string_of_uint d) = 0.
Proof. induction d; cbn; assumption || reflexivity. Qed.

Lemma of_Z_has_no_point n : Js.count "." (Number.of_Z n) = 0.
Proof.
  unfold Number.of_Z. destruct (Z.to_int n) as [d|d]; cbn;
    apply uint_has_no_point.
Qed.

(** A whole number of seconds is printed as an integer. *)
Lemma div_1000_whole n :
  (0 <= n)%Z -> Number.div_1000_to_string (1000 * n) = Number.of_Z n.
Proof.
  intros Hn. unfold Number.div_1000_to_string.
  rewrite Z.abs_eq by lia.
  replace (Z.quot (1000 * n) 1000) with n
    by (rewrite Z.mul_comm, Z.quot_mul; lia).
  replace (Z.rem (1000 * n) 1000) with 0%Z
    by (rewrite Z.mul_comm, Z.rem_mul; lia).
  destruct (Z.ltb_spec (1000 * n) 0); [lia |].
  cbn. apply app_empty_r.
Qed.






(** Line 204 divides without rounding: a max-age that is not a whole
    number of seconds is sent with its fraction, which no integer prints
    as. *)
Lemma max_age_with_fraction :
  setCacheControlHeaders "Thu, 01 Jan 2026 00:00:00 GMT"
    (setup (mkOptions (Some 1500%Z) None None) initial) ∅ !! "Cache-Control"
  = Some "public, max-age=1.5"
  /\ (forall n : Z, "public, max-age=1.5"
                    <> "public, max-age=" +:+ Number.of_Z n).
Proof.
  split; [vm_compute; reflexivity |].
  intros n E. apply (String.app_inj "public, max-age=") in E.
  apply (f_equal (Js.count ".")) in E. rewrite of_Z_has_no_point in E.
  discriminate E.
Qed.

(** * Further properties of the module *)

(** ** Splitting and joining the font list *)

Lemma split_not_nil c s : Js.split c s <> [].
Proof.
  destruct s as [|a s]; cbn; [discriminate |].
  destruct (Ascii.eqb a c); [discriminate |].
  destruct (Js.split c s); discriminate.
Qed.

Lemma split_parts_free c s : Forall (Js.free_of c) (Js.split c s).
Proof.
  induction s as [|a s IH]; cbn.
  - repeat constructor.
  - destruct (Ascii.eqb_spec a c) as [->|Hac].
    + constructor; [reflexivity | exact IH].
    + destruct (Js.split c s) as [|x xs].
      * constructor; [| constructor]. apply free_of_cons. now split.
      * apply Forall_cons_1 in IH as [Hx Hxs].
        constructor; [| exact Hxs]. apply free_of_cons. now split.
Qed.

Lemma join_split c s : Js.join (String c "") (Js.split c s) = s.
Proof.
  induction s as [|a s IH]; [reflexivity |].
  cbn [Js.split]. pose proof (split_not_nil c s) as Hne.
  destruct (Ascii.eqb_spec a c) as [->|Hac].
  - destruct (Js.split c s) as [|x xs]; [contradiction |].
    rewrite join_cons2, IH. reflexivity.
  - destruct (Js.split c s) as [|x xs]; [contradiction |].
    destruct xs as [|y ys].
    + cbn in IH |- *. now rewrite IH.
    + rewrite join_cons2 in IH |- *. rewrite <- IH. reflexivity.
Qed.

Lemma split_free c s : Js.free_of c s -> Js.split c s = [s].
Proof.
  induction s as [|a s IH]; [reflexivity |].
  intros [Hac F]%free_of_cons. cbn [Js.split].
  destruct (Ascii.eqb_spec a c); [contradiction |]. now rewrite (IH F).
Qed.

Lemma split_app_sep c x t :
  Js.free_of c x -> Js.split c (x +:+ String c t) = x :: Js.split c t.
Proof.
  induction x as [|a x IH]; cbn [String.append Js.split].
  - now rewrite Ascii.eqb_refl.
  - intros [Hac F]%free_of_cons.
    destruct (Ascii.eqb_spec a c); [contradiction |]. now rewrite (IH F).
Qed.

Lemma split_join c (l : list string) :
  l <> [] -> Forall (Js.free_of c) l ->
  Js.split c (Js.join (String c "") l) = l.
Proof.
  induction l as [|x l IH]; [contradiction |].
  intros _ [Fx Fl]%Forall_cons_1. destruct l as [|y l].
  - cbn [Js.join]. now apply split_free.
  - rewrite join_cons2. cbn [String.append].
    rewrite split_app_sep by assumption. f_equal. now apply IH.
Qed.

(** The font list of a request and the URL segment it comes from carry the
    same information: splitting gives a non-empty list of comma-free names
    whose join is the segment again, so the cache key of a request is the
    user agent, the locale and the segment as written, joined by ['-'];
    and a non-empty list of comma-free names is what splitting its join
    gives. *)
Theorem fonts_split_join_round_trip :
  (forall seg,
      Js.split "," seg <> []
      /\ Forall (Js.free_of ",") (Js.split "," seg)
      /\ Js.join "," (Js.split "," seg) = seg
      /\ forall ua locale,
          getCacheKey ua locale (Js.split "," seg)
          = ua +:+ "-" +:+ locale +:+ "-" +:+ seg)
  /\ (forall fonts : list string,
         fonts <> [] -> Forall (Js.free_of ",") fonts ->
         Js.split "," (Js.join "," fonts) = fonts).
Proof.
  split.
  - intros seg. split; [apply split_not_nil |].
    split; [apply split_parts_free |].
    split; [apply join_split |].
    intros ua locale. unfold getCacheKey. now rewrite join_split.
  - intros fonts. apply split_join.
Qed.

Lemma fonts_split_join_round_trip_witness :
  Js.join "," (Js.split "," "Arial,,Roboto,") = "Arial,,Roboto,"
  /\ Js.split "," (Js.join "," ["Arial"; ""; "Roboto"])
     = ["Arial"; ""; "Roboto"].
Proof.
  split.
  - apply (proj1 fonts_split_join_round_trip "Arial,,Roboto,").
  - apply (proj2 fonts_split_join_round_trip ["Arial"; ""; "Roboto"]);
      [discriminate | repeat constructor].
Defined.

(** ** The file name *)

Lemma replace_non_word_free c s :
  is_word_char c = false -> c <> "-"%char ->
  Js.count c (replace_non_word "-" s) = 0.
Proof.
  intros Hw Hc. induction s as [|a s IH]; [reflexivity |].
  cbn [replace_non_word Js.count]. rewrite IH.
  destruct (is_word_char a) eqn:Ha.
  - destruct (Ascii.eqb_spec a c) as [->|_]; [congruence | reflexivity].
  - destruct (Ascii.eqb_spec "-"%char c) as [<-|_];
      [contradiction | reflexivity].
Qed.

Lemma replace_non_word_plain s : keeps_name (replace_non_word "-" s) = true.
Proof.
  induction s as [|a s IH]; [reflexivity |].
  cbn [replace_non_word keeps_name]. rewrite IH.
  destruct (is_word_char a) eqn:Ha; [now rewrite Ha | reflexivity].
Qed.

(** Whatever the key, and so whatever user agent and URL a request brings,
    the file name has no ['/'] and a single ['.'], the one of [.css]: the
    file lies directly in the temporary directory. Deriving the name from a
    name changes nothing more. *)
Theorem css_file_name_stays_in_directory key :
  Js.count "/" (css_file_name key) = 0
  /\ Js.count "." (css_file_name key) = 1
  /\ String.length (css_file_name key) = String.length key + 4
  /\ replace_non_word "-" (replace_non_word "-" key)
     = replace_non_word "-" key.
Proof.
  unfold css_file_name. rewrite !count_app, length_app.
  rewrite !replace_non_word_free by (reflexivity || discriminate).
  rewrite replace_non_word_length.
  repeat split.
  apply replace_non_word_keeps, replace_non_word_plain.
Qed.

(** ** Which URLs match *)

Lemma split_at_last c s1 s2 t1 t2 :
  Js.free_of c t1 -> Js.free_of c t2 ->
  s1 +:+ String c t1 = s2 +:+ String c t2 -> s1 = s2 /\ t1 = t2.
Proof.
  intros F1 F2. revert s2.
  induction s1 as [|a s1 IH]; intros [|b s2] E; cbn [String.append] in E.
  - injection E as ->. now split.
  - exfalso. injection E as _ E. apply (f_equal (Js.count c)) in E.
    rewrite count_app in E. cbn [Js.count] in E.
    rewrite Ascii.eqb_refl in E. unfold Js.free_of in F1, F2. lia.
  - exfalso. injection E as _ E. apply (f_equal (Js.count c)) in E.
    rewrite count_app in E. cbn [Js.count] in E.
    rewrite Ascii.eqb_refl in E. unfold Js.free_of in F1, F2. lia.
  - injection E as -> E. destruct (IH s2 E) as [-> ->]. now split.
Qed.

Lemma with_locale_without g1 g2 :
  with_locale g1 g2 = ("/" +:+ g1) +:+ without_locale g2.
Proof.
  reflexivity.
Qed.

(** The part of a text before its final [/<g>/fonts.css] is determined. *)
Lemma without_locale_suffix_inj x y g h :
  segment g -> segment h ->
  x +:+ without_locale g = y +:+ without_locale h -> x = y /\ g = h.
Proof.
  intros [_ Fg] [_ Fh] E. unfold without_locale in E.
  change ("/" +:+ g +:+ "/fonts.css") with (String "/" (g +:+ "/fonts.css"))
    in E.
  change ("/" +:+ h +:+ "/fonts.css") with (String "/" (h +:+ "/fonts.css"))
    in E.
  assert (G : forall u, x +:+ String "/" (u +:+ "/fonts.css")
                        = (x +:+ String "/" u) +:+ "/fonts.css").
  { intros u. now rewrite app_assoc_s. }
  assert (H : forall u, y +:+ String "/" (u +:+ "/fonts.css")
                        = (y +:+ String "/" u) +:+ "/fonts.css").
  { intros u. now rewrite app_assoc_s. }
  rewrite G, H in E. apply app_cancel_r in E.
  now apply split_at_last in E.
Qed.

Lemma match_here_without_locale g2 :
  segment g2 ->
  Regex.match_here font_css_pattern (without_locale g2)
  = Some (captured None g2).
Proof.
  intros S2. pose proof S2 as [N2 F2].
  unfold Regex.match_here. rewrite font_css_pattern_parts. cbn [Regex.run].
  destruct (Regex.run locale_part _ _ _) as [x|] eqn:E.
  - exfalso.
    apply locale_part_sound in E as (g1 & rest & E & N1 & F1 & R).
    apply fonts_part_sound in R as (h2 & -> & M2 & G2 & _).
    apply (f_equal (Js.count "/")) in E.
    rewrite (count_without_locale g2 S2) in E.
    change ("/" +:+ g1 +:+ "/" +:+ h2 +:+ "/fonts.css")
      with (with_locale g1 h2) in E.
    rewrite count_with_locale in E by now split. discriminate E.
  - unfold without_locale. now rewrite fonts_part_run.
Qed.

(** What [exec] finds ends the text, as one of the two shapes. *)
Lemma exec_sound_suffix s m :
  Regex.exec font_css_pattern s = Some m ->
  exists pre g2, segment g2 /\ s = pre +:+ without_locale g2.
Proof.
  induction s as [|a s IH]; rewrite exec_unfold;
    destruct (Regex.match_here font_css_pattern _) as [m'|] eqn:E;
    try discriminate.
  - intros _. apply match_here_sound in E
      as [(g1 & g2 & _ & S2 & E & _)|(g2 & S2 & E & _)].
    + exists ("/" +:+ g1), g2. now rewrite <- with_locale_without.
    + now exists "", g2.
  - intros H. destruct (IH H) as (pre & g2 & S2 & ->).
    now exists (String a pre), g2.
Qed.

Lemma exec_complete pre g2 :
  segment g2 ->
  is_Some (Regex.exec font_css_pattern (pre +:+ without_locale g2)).
Proof.
  intros S2. induction pre as [|a pre IH]; rewrite exec_unfold.
  - cbn [String.append]. rewrite match_here_without_locale by assumption.
    now eexists.
  - destruct (Regex.match_here _ _); [now eexists | exact IH].
Qed.

(** A request is a font request exactly when it is a GET request whose URL
    ends with [/<seg>/fonts.css] for a non-empty segment without a slash.
    A query string after [fonts.css], or an empty fonts segment, makes the
    responder pass the request on. *)
Theorem request_match_iff req :
  is_Some (request_match req)
  <-> method req = "GET"
      /\ exists pre seg, seg <> "" /\ Js.free_of "/" seg
                         /\ url req = pre +:+ "/" +:+ seg +:+ "/fonts.css".
Proof.
  unfold request_match. split.
  - destruct (String.eqb_spec (method req) "GET") as [E|_].
    + intros [m H]. split; [exact E |].
      apply exec_sound_suffix in H as (pre & g2 & [N F] & H).
      now exists pre, g2.
    + intros [m H]. discriminate H.
  - intros [-> (pre & seg & N & F & ->)]. cbn.
    apply (exec_complete pre seg). now split.
Qed.

Lemma request_match_iff_witness :
  is_Some (request_match (get_request "/static/Arial,Roboto/fonts.css" None))
  /\ request_match (get_request "/en/Arial/fonts.css?v=2" None) = None
  /\ request_match (get_request "/en//fonts.css" None) = None.
Proof.
  split; [| split].
  - apply (proj2 (request_match_iff _)). split; [reflexivity |].
    exists "/static", "Arial,Roboto". repeat split. discriminate.
  - vm_compute. reflexivity.
  - vm_compute. reflexivity.
Defined.

(** An attempt before the last two slashes needs a locale segment right
    there. *)
Lemma match_here_needs_locale a pre g2 :
  segment g2 ->
  (forall p g1, segment g1 -> String a pre <> p +:+ "/" +:+ g1) ->
  Regex.match_here font_css_pattern (String a pre +:+ without_locale g2)
  = None.
Proof.
  intros S2 Hpre.
  destruct (Regex.match_here _ _) as [m|] eqn:E; [exfalso | reflexivity].
  apply match_here_sound in E as [(h1 & h2 & T1 & T2 & E & _)|(h2 & T2 & E & _)].
  - rewrite with_locale_without in E.
    apply without_locale_suffix_inj in E as [E _]; try assumption.
    now apply (Hpre "" h1 T1).
  - pose proof (f_equal (Js.count "/") E) as N.
    rewrite count_app, (count_without_locale g2 S2),
      (count_without_locale h2 T2) in N.
    unfold without_locale in E at 2. cbn [String.append] in E.
    injection E as -> _. cbn [Js.count] in N.
    rewrite Ascii.eqb_refl in N. lia.
Qed.

Lemma exec_without_locale pre g2 :
  segment g2 ->
  (forall p g1, segment g1 -> pre <> p +:+ "/" +:+ g1) ->
  Regex.exec font_css_pattern (pre +:+ without_locale g2)
  = Some (captured None g2).
Proof.
  intros S2. induction pre as [|a pre IH]; intros Hpre.
  - rewrite exec_unfold. cbn [String.append].
    now rewrite match_here_without_locale.
  - rewrite exec_unfold, match_here_needs_locale by assumption.
    cbn [String.append]. apply IH.
    intros p g1 S1 ->. now apply (Hpre (String a p) g1 S1).
Qed.

Lemma last_char_app p g : g <> "" -> Js.last_char (p +:+ g) = Js.last_char g.
Proof.
  intros Hg. induction p as [|a p IH]; [reflexivity |].
  cbn [String.append Js.last_char]. rewrite IH.
  destruct (p +:+ g) eqn:E; [| reflexivity].
  destruct p, g; cbn in E; congruence.
Qed.

Lemma last_char_counts c g : Js.last_char g = Some c -> Js.count c g <> 0.
Proof.
  induction g as [|a g IH]; [discriminate |].
  cbn [Js.last_char Js.count]. destruct g as [|b g].
  - intros [= ->]. rewrite Ascii.eqb_refl. discriminate.
  - intros H. specialize (IH H). lia.
Qed.

Lemma no_locale_segment pre :
  Js.last_char pre = Some "/"%char \/ Js.free_of "/" pre ->
  forall p g1, segment g1 -> pre <> p +:+ "/" +:+ g1.
Proof.
  intros H p g1 [N1 F1] ->. destruct H as [H|H].
  - rewrite (last_char_app p ("/" +:+ g1)) in H by discriminate.
    rewrite (last_char_app "/" g1) in H by assumption.
    now apply last_char_counts in H.
  - unfold Js.free_of in H. rewrite count_app in H.
    cbn [String.append Js.count] in H. rewrite Ascii.eqb_refl in H. lia.
Qed.

(** The locale is ["default"] when the fonts segment is not preceded by a
    locale segment: at the start of the URL or after text without any
    slash, or after an empty segment. Together with the match on a
    preceding segment this covers every URL that matches. *)
Theorem locale_defaults req pre seg :
  method req = "GET" ->
  url req = pre +:+ "/" +:+ seg +:+ "/fonts.css" ->
  seg <> "" -> Js.free_of "/" seg ->
  Js.last_char pre = Some "/"%char \/ Js.free_of "/" pre ->
  exists m, request_match req = Some m /\ locale_of m = "default"
            /\ fonts_of m = Some (Js.split "," seg).
Proof.
  intros Hm Hu N F Hpre. exists (captured None seg).
  split; [| split; reflexivity].
  unfold request_match. rewrite Hm, Hu.
  apply (exec_without_locale pre seg); [now split |].
  now apply no_locale_segment.
Qed.

Lemma locale_defaults_witness :
  (exists m, request_match (get_request "/en//Arial/fonts.css" None) = Some m
             /\ locale_of m = "default" /\ fonts_of m = Some ["Arial"])
  /\ (exists m, request_match (get_request "static/Arial/fonts.css" None)
                = Some m
                /\ locale_of m = "default" /\ fonts_of m = Some ["Arial"]).
Proof.
  split.
  - apply (locale_defaults (get_request "/en//Arial/fonts.css" None)
                           "/en/" "Arial");
      try reflexivity; try discriminate.
    left. reflexivity.
  - apply (locale_defaults (get_request "static/Arial/fonts.css" None)
                           "static" "Arial");
      try reflexivity; try discriminate.
    right. reflexivity.
Defined.

(** ** What a call changes *)

Lemma prepareTmpPath_frame env st r st' :
  prepareTmpPath env st = (r, st') ->
  config st' = config st /\ maxAge st' = maxAge st
  /\ compress st' = compress st
  /\ generator_calls st' = generator_calls st.
Proof.
  unfold prepareTmpPath. destruct (Js.truthy (cssTmpPath st)).
  - now intros [= _ <-].
  - destruct (tmp_dir env); now intros [= _ <-].
Qed.

Lemma get_css_hit env ua locale fonts st o :
  cssCache st !! getCacheKey ua locale fonts = Some o ->
  get_css env ua locale fonts st
  = (Ok o, record (CalledGetCss ua locale fonts) st).
Proof. intros H. unfold get_css. cbn [cssCache record]. now rewrite H. Qed.

(** A call either leaves the cache and the disk as they are, or it was a
    miss that wrote one file and inserted one entry. *)
Lemma get_css_effects env ua locale fonts st r st' :
  get_css env ua locale fonts st = (r, st') ->
  config st' = config st /\ maxAge st' = maxAge st
  /\ compress st' = compress st
  /\ ((cssCache st' = cssCache st /\ disk st' = disk st
       /\ forall o, r = Ok o ->
                    cssCache st !! getCacheKey ua locale fonts = Some o)
      \/ exists cssStr dir,
          cssCache st !! getCacheKey ua locale fonts = None
          /\ r = Ok (mkCssObj cssStr
                       (Some (dir +:+ "/"
                              +:+ css_file_name (getCacheKey ua locale fonts))))
          /\ cssCache st'
             = <[getCacheKey ua locale fonts :=
                   mkCssObj cssStr
                     (Some (dir +:+ "/"
                            +:+ css_file_name (getCacheKey ua locale fonts)))]>
                 (cssCache st)
          /\ disk st'
             = <[dir +:+ "/" +:+ css_file_name (getCacheKey ua locale fonts)
                 := cssStr]> (disk st)).
Proof.
  unfold get_css, generate_css. cbn [cssCache record].
  destruct (cssCache st !! getCacheKey ua locale fonts) as [hit|] eqn:Hc.
  { intros [= <- <-]. repeat split; try reflexivity. left.
    repeat split. now intros o [= ->]. }
  destruct (get_font_css env ua locale fonts) as [e|cssStr].
  { intros [= <- <-]. repeat split; try reflexivity. left.
    repeat split. discriminate. }
  destruct (prepareTmpPath env _) as [[err tmpPath] st2] eqn:E.
  destruct (prepareTmpPath_keeps _ _ _ _ E) as [Kc Kd].
  destruct (prepareTmpPath_frame _ _ _ _ E) as (Fc & Fm & Fz & _).
  cbn [cssCache disk config maxAge compress record] in Kc, Kd, Fc, Fm, Fz.
  destruct tmpPath as [dir|]; cbn [path_join].
  2:{ intros [= <- <-]. repeat split; try assumption. left.
      repeat split; try assumption. discriminate. }
  cbn [css]. destruct (write_file env _ cssStr) as [e|].
  - intros [= <- <-]. cbn [config maxAge compress cssCache disk record].
    repeat split; try assumption. left. repeat split; try assumption.
    discriminate.
  - intros [= <- <-].
    cbn [config maxAge compress cssCache disk record set_cssCache set_disk].
    repeat split; try assumption. right. exists cssStr, dir.
    rewrite Kc, Kd. now repeat split.
Qed.

(** The generator is invoked exactly on a miss, once. *)
Lemma get_css_generator_calls env ua locale fonts st :
  generator_calls (snd (get_css env ua locale fonts st))
  = generator_calls st
    + match cssCache st !! getCacheKey ua locale fonts with
      | Some _ => 0
      | None => 1
      end.
Proof.
  unfold get_css, generate_css. cbn [cssCache record].
  destruct (cssCache st !! getCacheKey ua locale fonts) as [hit|].
  { cbn. unfold generator_calls. cbn. lia. }
  destruct (get_font_css env ua locale fonts) as [e|cssStr].
  { cbn. unfold generator_calls. cbn. lia. }
  destruct (prepareTmpPath env _) as [[err tmpPath] st2] eqn:E.
  apply prepareTmpPath_frame in E as (_ & _ & _ & G).
  assert (G' : generator_calls st2 = generator_calls st + 1).
  { rewrite G. unfold generator_calls. cbn. lia. }
  destruct (path_join tmpPath _) as [e|path]; [exact G' |].
  cbn [css]. destruct (write_file env path cssStr); exact G'.
Qed.

(** The cache is a memo of the generator: a call to [get_css] invokes the
    generator once if its key is not cached and not at all if it is. *)
Theorem generator_invoked_iff_miss env ua locale fonts st :
  generator_calls (snd (get_css env ua locale fonts st))
  = generator_calls st
    + match cssCache st !! getCacheKey ua locale fonts with
      | Some _ => 0
      | None => 1
      end.
Proof. apply get_css_generator_calls. Qed.

(** Entries are never evicted or changed by [get_css], and it leaves the
    configuration alone: what a key is mapped to stays so through every
    later call, for any arguments. *)
Theorem get_css_keeps_entries env ua locale fonts st key o :
  cssCache st !! key = Some o ->
  cssCache (snd (get_css env ua locale fonts st)) !! key = Some o
  /\ config (snd (get_css env ua locale fonts st)) = config st
  /\ maxAge (snd (get_css env ua locale fonts st)) = maxAge st
  /\ compress (snd (get_css env ua locale fonts st)) = compress st.
Proof.
  intros H. destruct (get_css env ua locale fonts st) as [r st'] eqn:E.
  cbn [snd].
  apply get_css_effects in E
    as (Hc & Hm & Hz & [(Hk & _ & _)|(cssStr & dir & Hmiss & _ & Hk & _)]).
  - rewrite Hk. now repeat split.
  - repeat split; try assumption. rewrite Hk.
    rewrite lookup_insert_ne; [exact H |]. intros <-. congruence.
Qed.

Lemma get_css_keeps_entries_witness :
  exists o,
    cssCache (snd (get_css env_ok "Mozilla" "en" ["Arial"] initial))
    !! "Mozilla-en-Arial" = Some o
    /\ cssCache (snd (get_css env_per_ua "Opera" "fr" ["Roboto"]
                        (snd (get_css env_ok "Mozilla" "en" ["Arial"] initial))))
       !! "Mozilla-en-Arial" = Some o.
Proof.
  eexists. split; [vm_compute; reflexivity |].
  apply (get_css_keeps_entries env_per_ua "Opera" "fr" ["Roboto"]
           (snd (get_css env_ok "Mozilla" "en" ["Arial"] initial))
           "Mozilla-en-Arial").
  vm_compute. reflexivity.
Defined.

(** [setup] empties the cache, so that the next call for any key goes to
    the generator again, and it keeps the temporary directory and the files
    in it. *)
Theorem setup_resets_cache options st env ua locale fonts :
  cssCache (setup options st) = ∅
  /\ cssTmpPath (setup options st) = cssTmpPath st
  /\ disk (setup options st) = disk st
  /\ generator_calls (snd (get_css env ua locale fonts (setup options st)))
     = S (generator_calls st).
Proof.
  repeat split. rewrite get_css_generator_calls.
  cbn [cssCache setup]. rewrite lookup_empty.
  unfold generator_calls. cbn [trace setup]. lia.
Qed.

(** ** The temporary directory *)

(** The directory is made once: after [prepareTmpPath] has handed out a
    non-empty path, every later call hands out the same path without
    calling [tmp.dir], whatever [tmp.dir] would answer. *)
Theorem tmp_path_created_once env1 env2 st err p st1 :
  prepareTmpPath env1 st = ((err, Some p), st1) -> p <> "" ->
  prepareTmpPath env2 st1 = ((None, Some p), st1).
Proof.
  unfold prepareTmpPath. intros H Hp.
  assert (Hs : cssTmpPath st1 = Some p).
  { destruct (Js.truthy (cssTmpPath st)).
    - now injection H as _ <- <-.
    - destruct (tmp_dir env1); injection H as _ H <-; [discriminate |].
      cbn. now f_equal. }
  rewrite Hs. destruct p; [contradiction | reflexivity].
Qed.

Lemma tmp_path_created_once_witness :
  exists st1,
    prepareTmpPath env_ok initial = ((None, Some "/tmp/fonts"), st1)
    /\ trace st1 = [CalledTmpDir]
    /\ prepareTmpPath
         (mkEnv (get_font_css env_ok) (inl (OtherError "Error" "EACCES"))
                (write_file env_ok)) st1
       = ((None, Some "/tmp/fonts"), st1).
Proof.
  eexists. split; [reflexivity |]. split; [reflexivity |].
  apply (tmp_path_created_once env_ok _ initial None "/tmp/fonts");
    [reflexivity | discriminate].
Defined.

(** When the directory cannot be made, [prepareTmpPath] passes the error of
    [tmp.dir] on and memoises nothing, but [get_css] does not look at that
    error: it goes on to [path.join] without a directory, which throws, so
    the caller's callback is never called with the error; nothing is
    written and nothing is cached. *)
Theorem tmp_dir_failure env ua locale fonts st e cssStr :
  cssCache st !! getCacheKey ua locale fonts = None ->
  get_font_css env ua locale fonts = inr cssStr ->
  Js.truthy (cssTmpPath st) = false ->
  tmp_dir env = inl e ->
  (exists st1, prepareTmpPath env st = ((Some e, None), st1)
               /\ cssTmpPath st1 = cssTmpPath st)
  /\ exists st',
      get_css env ua locale fonts st
      = (Thrown (OtherError "TypeError" "Path must be a string"), st')
      /\ cssCache st' = cssCache st /\ disk st' = disk st
      /\ cssTmpPath st' = cssTmpPath st.
Proof.
  intros Hmiss Hgen Htmp Hdir. split.
  - unfold prepareTmpPath. rewrite Htmp, Hdir. now eexists.
  - unfold get_css, generate_css, prepareTmpPath.
    cbn [cssCache record]. rewrite Hmiss, Hgen.
    cbn [cssTmpPath record]. rewrite Htmp, Hdir.
    cbn [path_join]. now eexists.
Qed.

Lemma tmp_dir_failure_witness :
  exists st',
    get_css (mkEnv (get_font_css env_ok) (inl (OtherError "Error" "EACCES"))
                   (write_file env_ok))
            "Mozilla" "en" ["Arial"] initial
    = (Thrown (OtherError "TypeError" "Path must be a string"), st')
    /\ cssCache st' = cssCache initial /\ disk st' = disk initial
    /\ cssTmpPath st' = cssTmpPath initial.
Proof.
  apply (proj2 (tmp_dir_failure
                  (mkEnv (get_font_css env_ok)
                         (inl (OtherError "Error" "EACCES"))
                         (write_file env_ok))
                  "Mozilla" "en" ["Arial"] initial
                  (OtherError "Error" "EACCES") "@font-face{}"
                  eq_refl eq_refl eq_refl eq_refl)).
Defined.

(** ** An invariant of the cache *)

Lemma responder_state env req st :
  snd (font_css_responder env req st) = st
  \/ exists ua locale fonts,
      font_css_responder env req st = on_css (get_css env ua locale fonts st).
Proof.
  unfold font_css_responder. destruct (request_match req) as [m|]; [| now left].
  destruct (fonts_of m) as [fonts|]; [| now left].
  destruct (resolve_ua st req) as [[|a ua]|]; try now left.
  destruct (locale_of m) as [|b l]; [now left |].
  right. now eexists _, _, _.
Qed.

Lemma on_css_state r : snd (on_css r) = snd r.
Proof.
  destruct r as [[o|e|e] st]; cbn; [reflexivity | | reflexivity].
  now destruct (instanceof_InvalidFontError e).
Qed.

Lemma get_css_keeps_wf env ua locale fonts st :
  cache_wf st -> cache_wf (snd (get_css env ua locale fonts st)).
Proof.
  intros W. destruct (get_css env ua locale fonts st) as [r st'] eqn:E.
  cbn [snd].
  apply get_css_effects in E
    as (_ & _ & _ & [(Hk & Hd & _)|(cssStr & dir & _ & _ & Hk & Hd)]);
    intros key o; rewrite Hk, Hd.
  - apply W.
  - destruct (decide (getCacheKey ua locale fonts = key)) as [<-|Hne].
    + rewrite lookup_insert_eq. intros [= <-]. exists dir. split; [reflexivity |].
      rewrite lookup_insert_eq. now eexists.
    + rewrite lookup_insert_ne by assumption. intros H.
      destruct (W key o H) as (d & Hp & Hs). exists d. split; [exact Hp |].
      destruct (decide (dir +:+ "/" +:+ css_file_name
                                          (getCacheKey ua locale fonts)
                        = d +:+ "/" +:+ css_file_name key)) as [<-|Hn].
      * rewrite lookup_insert_eq. now eexists.
      * now rewrite lookup_insert_ne.
Qed.

Lemma cache_wf_reachable st : reachable st -> cache_wf st.
Proof.
  induction 1 as [|options st _ _|env ua locale fonts st _ IH|env req st _ IH].
  - intros key o H. cbn in H. now rewrite lookup_empty in H.
  - intros key o H. cbn in H. now rewrite lookup_empty in H.
  - now apply get_css_keeps_wf.
  - destruct (responder_state env req st) as [->|(ua & l & fonts & ->)];
      [exact IH |].
    rewrite on_css_state. now apply get_css_keeps_wf.
Qed.

(** In every state the module reaches, each cache entry has a [cssPath],
    which is the file name of its key in some directory, and that file has
    been written. *)
Theorem reachable_cache_wf st : reachable st -> cache_wf st.
Proof. apply cache_wf_reachable. Qed.

Lemma reachable_cache_wf_witness :
  cache_wf (snd (font_css_responder env_ok
                   (get_request "/en/Arial/fonts.css" (Some "Mozilla/5.0"))
                   (setup (mkOptions (Some 3600000%Z) None None) initial))).
Proof.
  apply reachable_cache_wf. apply reach_responder, reach_setup, reach_initial.
Defined.

(** ** The responder and the cache *)

Lemma responder_piped_inv env req st p c st' :
  font_css_responder env req st = (Piped p c, st') ->
  exists m ua fonts o,
    request_match req = Some m /\ fonts_of m = Some fonts
    /\ resolve_ua st req = Some ua /\ ua <> ""
    /\ get_css env ua (locale_of m) fonts st = (Ok o, st')
    /\ p = cssPath o /\ c = compress st'.
Proof.
  unfold font_css_responder.
  destruct (request_match req) as [m|]; [| discriminate].
  destruct (fonts_of m) as [fonts|] eqn:Ef; [| discriminate].
  destruct (resolve_ua st req) as [[|a ua]|]; try discriminate.
  pose proof (locale_of_nonempty m) as Hl.
  destruct (locale_of m) as [|b l] eqn:El; [contradiction |].
  destruct (get_css env (String a ua) (String b l) fonts st) as [[o|e|e] st1]
    eqn:E; cbn [on_css].
  - intros [= <- <- <-]. exists m, (String a ua), fonts, o.
    rewrite El. repeat split; (reflexivity || assumption || discriminate).
  - destruct (instanceof_InvalidFontError e); discriminate.
  - discriminate.
Qed.

(** Whenever the responder, in a state the module reaches, pipes a file to
    the response, the path it gives to the file server is defined, is the
    file name of some cache key in some directory, and names a file that
    has been written; the compression flag is the configured one. *)
Theorem responder_pipes_written_file env req st p c st' :
  reachable st ->
  font_css_responder env req st = (Piped p c, st') ->
  c = compress st
  /\ exists dir key,
      p = Some (dir +:+ "/" +:+ css_file_name key)
      /\ is_Some (disk st' !! (dir +:+ "/" +:+ css_file_name key)).
Proof.
  intros R H.
  apply responder_piped_inv in H
    as (m & ua & fonts & o & _ & _ & _ & _ & G & -> & ->).
  pose proof (cache_wf_reachable st R) as W.
  apply get_css_effects in G
    as (_ & _ & Hz & [(_ & Hd & Hhit)|(cssStr & dir & _ & [= ->] & _ & Hd)]).
  - split; [exact Hz |]. destruct (W _ o (Hhit o eq_refl)) as (dir & Hp & Hs).
    exists dir, (getCacheKey ua (locale_of m) fonts). now rewrite Hd.
  - split; [exact Hz |]. exists dir, (getCacheKey ua (locale_of m) fonts).
    split; [reflexivity |]. rewrite Hd, lookup_insert_eq. now eexists.
Qed.

Lemma responder_pipes_written_file_witness :
  exists st',
    font_css_responder env_ok
      (get_request "/en/Arial/fonts.css" (Some "Mozilla/5.0"))
      (setup (mkOptions None (Some true) None) initial)
    = (Piped (Some "/tmp/fonts/Mozilla-5-0-en-Arial.css") true, st')
    /\ true = compress (setup (mkOptions None (Some true) None) initial)
    /\ exists dir key,
        Some "/tmp/fonts/Mozilla-5-0-en-Arial.css"
        = Some (dir +:+ "/" +:+ css_file_name key)
        /\ is_Some (disk st' !! (dir +:+ "/" +:+ css_file_name key)).
Proof.
  eexists. split; [vm_compute; reflexivity |].
  eapply (responder_pipes_written_file env_ok
            (get_request "/en/Arial/fonts.css" (Some "Mozilla/5.0"))
            (setup (mkOptions None (Some true) None) initial)).
  - apply reach_setup, reach_initial.
  - vm_compute. reflexivity.
Defined.

(** A request that was answered with a file is answered with the same file
    when it comes again: the second time from the cache, without the
    generator, without a write, whatever the collaborators would do. *)
Theorem responder_repeats_from_cache env1 env2 req st p c st1 :
  font_css_responder env1 req st = (Piped p c, st1) ->
  exists st2,
    font_css_responder env2 req st1 = (Piped p c, st2)
    /\ generator_calls st2 = generator_calls st1
    /\ cssCache st2 = cssCache st1 /\ disk st2 = disk st1.
Proof.
  intros H.
  apply responder_piped_inv in H
    as (m & ua & fonts & o & Hm & Hf & Hua & Hne & G & -> & ->).
  assert (Hhit : cssCache st1 !! getCacheKey ua (locale_of m) fonts = Some o).
  { pose proof G as G'.
    apply get_css_effects in G'
      as (_ & _ & _ & [(Hk & _ & Hhit)|(cssStr & dir & _ & [= ->] & Hk & _)]).
    - rewrite Hk. now apply Hhit.
    - rewrite Hk. apply lookup_insert_eq. }
  assert (Hua1 : resolve_ua st1 req = Some ua).
  { apply get_css_effects in G as (Hc & _). unfold resolve_ua in *.
    now rewrite Hc. }
  exists (record (CalledGetCss ua (locale_of m) fonts) st1).
  rewrite (responder_calls_get_css env2 req st1 m ua fonts Hm Hf Hua1 Hne).
  rewrite (get_css_hit env2 ua (locale_of m) fonts st1 o Hhit).
  now repeat split.
Qed.

Lemma responder_repeats_from_cache_witness :
  exists st1 st2,
    font_css_responder env_ok
      (get_request "/en/Arial/fonts.css" (Some "Mozilla/5.0")) initial
    = (Piped (Some "/tmp/fonts/Mozilla-5-0-en-Arial.css") false, st1)
    /\ font_css_responder env_disk_full
         (get_request "/en/Arial/fonts.css" (Some "Mozilla/5.0")) st1
       = (Piped (Some "/tmp/fonts/Mozilla-5-0-en-Arial.css") false, st2)
    /\ generator_calls st2 = generator_calls st1
    /\ cssCache st2 = cssCache st1 /\ disk st2 = disk st1.
Proof.
  destruct (font_css_responder env_ok
              (get_request "/en/Arial/fonts.css" (Some "Mozilla/5.0")) initial)
    as [out st1] eqn:E.
  assert (Ho : out = Piped (Some "/tmp/fonts/Mozilla-5-0-en-Arial.css") false).
  { apply (f_equal fst) in E. cbn [fst] in E. rewrite <- E.
    vm_compute. reflexivity. }
  subst out.
  destruct (responder_repeats_from_cache env_ok env_disk_full _ _ _ _ _ E)
    as (st2 & H).
  exists st1, st2. split; [reflexivity | exact H].
Defined.

(** A request for a font the generator rejects is passed on and leaves no
    trace in the cache, so the generator is asked again each time the
    request comes. *)
Theorem unknown_font_is_asked_again env req st m ua fonts e :
  request_match req = Some m -> fonts_of m = Some fonts ->
  resolve_ua st req = Some ua -> ua <> "" ->
  cssCache st !! getCacheKey ua (locale_of m) fonts = None ->
  get_font_css env ua (locale_of m) fonts = inl e ->
  instanceof_InvalidFontError e = true ->
  exists st1 st2,
    font_css_responder env req st = (Next, st1)
    /\ font_css_responder env req st1 = (Next, st2)
    /\ cssCache st2 = cssCache st
    /\ generator_calls st2 = generator_calls st + 2.
Proof.
  intros Hm Hf Hua Hne Hmiss Hgen He.
  set (st1 := record (CalledGenerator ua (locale_of m) fonts)
                     (record (CalledGetCss ua (locale_of m) fonts) st)).
  exists st1.
  exists (record (CalledGenerator ua (locale_of m) fonts)
                 (record (CalledGetCss ua (locale_of m) fonts) st1)).
  split; [| split].
  - rewrite (responder_calls_get_css env req st m ua fonts Hm Hf Hua Hne).
    rewrite (get_css_generator_error env ua (locale_of m) fonts st e Hmiss Hgen).
    cbn [on_css]. rewrite He. reflexivity.
  - rewrite (responder_calls_get_css env req st1 m ua fonts Hm Hf Hua Hne).
    rewrite (get_css_generator_error env ua (locale_of m) fonts st1 e
               Hmiss Hgen).
    cbn [on_css]. rewrite He. reflexivity.
  - split; [reflexivity |]. unfold generator_calls. cbn. lia.
Qed.

Lemma unknown_font_is_asked_again_witness :
  exists st1 st2,
    font_css_responder env_invalid_font
      (get_request "/en/NoSuchFont/fonts.css" (Some "Mozilla/5.0")) initial
    = (Next, st1)
    /\ font_css_responder env_invalid_font
         (get_request "/en/NoSuchFont/fonts.css" (Some "Mozilla/5.0")) st1
       = (Next, st2)
    /\ cssCache st2 = cssCache initial
    /\ generator_calls st2 = generator_calls initial + 2.
Proof.
  apply (unknown_font_is_asked_again env_invalid_font
           (get_request "/en/NoSuchFont/fonts.css" (Some "Mozilla/5.0"))
           initial (captured (Some "en") "NoSuchFont") "Mozilla/5.0"
           ["NoSuchFont"] (InvalidFontError "unknown font"));
    (reflexivity || discriminate).
Defined.

(** A configured user agent overrides the request: with a non-empty
    [config.ua] the responder does for a request what it does for any other
    request of the same method and URL, whatever their headers. *)
Theorem configured_ua_overrides_header env st ua req1 req2 :
  opt_ua (config st) = Some ua -> ua <> "" ->
  method req1 = method req2 -> url req1 = url req2 ->
  resolve_ua st req1 = Some ua
  /\ font_css_responder env req1 st = font_css_responder env req2 st.
Proof.
  intros Hc Hne Hm Hu.
  assert (R : forall req, resolve_ua st req = Some ua).
  { intros req. unfold resolve_ua, Js.or_else. rewrite Hc.
    destruct ua; [contradiction | reflexivity]. }
  split; [apply R |].
  unfold font_css_responder, request_match. now rewrite Hm, Hu, !R.
Qed.

Lemma configured_ua_overrides_header_witness :
  font_css_responder env_per_ua
    (get_request "/en/Arial/fonts.css" None)
    (setup (mkOptions None None (Some "all")) initial)
  = font_css_responder env_per_ua
      (get_request "/en/Arial/fonts.css" (Some "Mozilla/5.0"))
      (setup (mkOptions None None (Some "all")) initial).
Proof.
  apply (configured_ua_overrides_header env_per_ua
           (setup (mkOptions None None (Some "all")) initial) "all");
    (reflexivity || discriminate).
Defined.

(** ** The header hook *)

Lemma hook_headers_truthy now st res :
  maxAge st <> 0%Z ->
  Js.truthy (setCacheControlHeaders now st res !! "Cache-Control") = true
  /\ (now <> "" ->
      Js.truthy (setCacheControlHeaders now st res !! "Date") = true).
Proof.
  intros Hm. unfold setCacheControlHeaders.
  destruct (Z.eqb_spec (maxAge st) 0) as [|_]; [contradiction |].
  assert (Hcc : forall r : gmap string string,
             (<["Date" := now]> r) !! "Cache-Control" = r !! "Cache-Control")
    by (intros r; now apply lookup_insert_ne).
  assert (Hdd : forall (r : gmap string string) v,
             (<["Cache-Control" := v]> r) !! "Date" = r !! "Date")
    by (intros r v; now apply lookup_insert_ne).
  destruct (Js.truthy (res !! "Date")) eqn:Hd;
    destruct (Js.truthy (res !! "Cache-Control")) eqn:Hc; cbn [negb];
    rewrite ?Hcc, ?Hc; cbn [negb]; rewrite ?Hdd, ?Hcc, ?lookup_insert_eq;
    (split; [assumption || reflexivity |]); intros Hn;
    try assumption; destruct now; (contradiction || reflexivity).
Qed.

Lemma hook_noop now st res :
  Js.truthy (res !! "Date") = true ->
  Js.truthy (res !! "Cache-Control") = true ->
  setCacheControlHeaders now st res = res.
Proof.
  intros Hd Hc. unfold setCacheControlHeaders.
  destruct (maxAge st =? 0)%Z; [reflexivity |].
  rewrite Hd. cbn [negb]. now rewrite Hc.
Qed.

(** The hook may run again on what it produced: once it has run at a time
    [now1], running it at any time changes no header, so the [Date] of the
    first run stays. *)
Theorem headers_hook_stable now1 now2 st res :
  now1 <> "" ->
  setCacheControlHeaders now2 st (setCacheControlHeaders now1 st res)
  = setCacheControlHeaders now1 st res.
Proof.
  intros Hn. destruct (Z.eq_dec (maxAge st) 0%Z) as [E|E].
  - unfold setCacheControlHeaders. apply Z.eqb_eq in E. now rewrite E.
  - destruct (hook_headers_truthy now1 st res E) as [Hc Hd].
    apply hook_noop; [now apply Hd | exact Hc].
Qed.

Lemma headers_hook_stable_witness :
  setCacheControlHeaders "Fri, 02 Jan 2026 00:00:00 GMT"
    (setup (mkOptions (Some 60000%Z) None None) initial)
    (setCacheControlHeaders "Thu, 01 Jan 2026 00:00:00 GMT"
       (setup (mkOptions (Some 60000%Z) None None) initial) ∅)
  = setCacheControlHeaders "Thu, 01 Jan 2026 00:00:00 GMT"
      (setup (mkOptions (Some 60000%Z) None None) initial) ∅.
Proof.
  apply (headers_hook_stable "Thu, 01 Jan 2026 00:00:00 GMT").
  discriminate.
Defined.

(** Headers are off unless [setup] is given a max-age other than 0: without
    one, or with 0, the hook changes nothing; with any other number, a
    negative one too, the response leaves the hook with a non-empty
    [Cache-Control] and, the clock giving a non-empty date, a non-empty
    [Date]. *)
Theorem headers_need_max_age options st now res :
  (opt_maxage options = None \/ opt_maxage options = Some 0%Z ->
   setCacheControlHeaders now (setup options st) res = res)
  /\ (forall n, opt_maxage options = Some n -> n <> 0%Z ->
        maxAge (setup options st) = n
        /\ Js.truthy (setCacheControlHeaders now (setup options st) res
                      !! "Cache-Control") = true
        /\ (now <> "" ->
            Js.truthy (setCacheControlHeaders now (setup options st) res
                       !! "Date") = true)).
Proof.
  split.
  - intros [H|H]; unfold setCacheControlHeaders; cbn [maxAge setup];
      now rewrite H.
  - intros n H Hn.
    assert (Hm : maxAge (setup options st) = n).
    { cbn [maxAge setup]. rewrite H.
      destruct (Z.eqb_spec n 0); [contradiction | reflexivity]. }
    split; [exact Hm |]. apply hook_headers_truthy. now rewrite Hm.
Qed.

Lemma headers_need_max_age_witness :
  setCacheControlHeaders "Thu, 01 Jan 2026 00:00:00 GMT"
    (setup (mkOptions None None None) initial) {[ "ETag" := "abc" ]}
  = {[ "ETag" := "abc" ]}
  /\ Js.truthy (setCacheControlHeaders "Thu, 01 Jan 2026 00:00:00 GMT"
                  (setup (mkOptions (Some (-1500)%Z) None None) initial)
                  {[ "ETag" := "abc" ]} !! "Cache-Control") = true.
Proof.
  split.
  - apply (proj1 (headers_need_max_age (mkOptions None None None) initial
                    "Thu, 01 Jan 2026 00:00:00 GMT" {[ "ETag" := "abc" ]})).
    left. reflexivity.
  - apply (proj2 (headers_need_max_age
                    (mkOptions (Some (-1500)%Z) None None) initial
                    "Thu, 01 Jan 2026 00:00:00 GMT" {[ "ETag" := "abc" ]})
             (-1500)%Z); [reflexivity | discriminate].
Defined.

(** ** The shape of a cache key *)

(** Every cache key has at least two ['-'], whatever its parts. The cache
    is a plain object indexed by the key, so no key is empty and none is a
    name without ['-'], such as [constructor] or [__proto__], that the
    object would answer without it having been stored. *)
Theorem cache_key_has_separators ua locale fonts :
  2 <= Js.count "-" (getCacheKey ua locale fonts)
  /\ forall name, Js.free_of "-" name -> getCacheKey ua locale fonts <> name.
Proof.
  assert (H : 2 <= Js.count "-" (getCacheKey ua locale fonts)).
  { unfold getCacheKey. rewrite count_app. cbn [String.append Js.count].
    rewrite Ascii.eqb_refl, count_app. cbn [String.append Js.count].
    rewrite Ascii.eqb_refl. lia. }
  split; [exact H |]. intros name F E. rewrite E in H.
  unfold Js.free_of in F. lia.
Qed.

Lemma cache_key_has_separators_witness :
  getCacheKey "" "" [] = "--"
  /\ getCacheKey "" "" [] <> "__proto__"
  /\ getCacheKey "" "" [] <> "constructor".
Proof.
  split; [reflexivity |].
  split; apply (proj2 (cache_key_has_separators "" "" [])); reflexivity.
Defined.
